(** * Tokei, experiments/compare_lemmas.py: a shallow embedding

    The script reconciles known-word statistics gathered from exported
    spreadsheets and from two SQLite stores.  This development embeds the
    pure core of the script (surface normalisation, header detection,
    extraction, per-file and cross-file aggregation, the configuration
    loaders and the SQL statistics) and proves the properties the
    specification states about it.

    Python strings are sequences of Unicode code points, so a [str] is a
    list of code points.  Four library functions are table driven and too
    large to embed: [unicodedata.normalize("NFC", _)], [str.lower],
    [int(_)] on a string and [str(_)] on a number, a list or a dict.
    They are parameters of the definitions that call them; the facts
    about them a proof relies on are hypotheses of the section the proof
    lives in, each a property of the real function. *)

From Stdlib Require Import ZArith NArith List Bool Lia String Ascii.
From Stdlib Require Import Decimal DecimalN DecimalPos.
From stdpp Require Import base option list gmap sets strings.

Local Open Scope N_scope.

(** ** Python strings *)

Abbreviation ustr := (list N).

(** An ASCII literal as a sequence of code points. *)
Definition lit (s : string) : ustr :=
  List.map N_of_ascii (list_ascii_of_string s).

(** Truthiness of a [str]: non-empty. *)
Definition truthy (s : ustr) : bool :=
  match s with [] => false | _ :: _ => true end.

(** [Py_UNICODE_ISSPACE]: the characters removed by [str.strip()] and
    matched by [\s] in a [str] pattern (the [re] module uses the same
    predicate for Unicode patterns). *)
Definition is_space (c : N) : bool :=
  ((9 <=? c) && (c <=? 13)) || ((28 <=? c) && (c <=? 32))
  || (c =? 0x85) || (c =? 0xA0) || (c =? 0x1680)
  || ((0x2000 <=? c) && (c <=? 0x200A))
  || (c =? 0x2028) || (c =? 0x2029) || (c =? 0x202F) || (c =? 0x205F)
  || (c =? 0x3000).

Fixpoint lstrip (s : ustr) : ustr :=
  match s with
  | [] => []
  | c :: s' => if is_space c then lstrip s' else s
  end.

Fixpoint rstrip (s : ustr) : ustr :=
  match s with
  | [] => []
  | c :: s' =>
      match rstrip s' with
      | [] => if is_space c then [] else [c]
      | r => c :: r
      end
  end.

(** [s.strip()] *)
Definition strip (s : ustr) : ustr := rstrip (lstrip s).

(** [re.sub(r"\s+", " ", s)]: every maximal run of whitespace becomes one
    U+0020.  [in_run] records that the previous character belonged to the
    run being replaced. *)
Fixpoint sub_ws_runs (in_run : bool) (s : ustr) : ustr :=
  match s with
  | [] => []
  | c :: s' =>
      if is_space c
      then (if in_run then sub_ws_runs true s' else 32 :: sub_ws_runs true s')
      else c :: sub_ws_runs false s'
  end.

Definition re_sub_ws (s : ustr) : ustr := sub_ws_runs false s.

(** [re.search(r"[a-z]", s)], [re.search(r"[A-Za-z]", s)] *)
Definition is_az (c : N) : bool := (97 <=? c) && (c <=? 122).
Definition is_AZaz (c : N) : bool := ((65 <=? c) && (c <=? 90)) || is_az c.
Definition search_az (s : ustr) : bool := existsb is_az s.
Definition search_AZaz (s : ustr) : bool := existsb is_AZaz s.

(** [k in s] for strings: [k] occurs as a contiguous substring of [s]. *)
Fixpoint starts_with (k s : ustr) : bool :=
  match k, s with
  | [], _ => true
  | _ :: _, [] => false
  | a :: k', b :: s' => (a =? b) && starts_with k' s'
  end.

Fixpoint py_in (k s : ustr) : bool :=
  starts_with k s || match s with [] => false | _ :: s' => py_in k s' end.

(** [" ".join(xs)] *)
Fixpoint join_sp (xs : list ustr) : ustr :=
  match xs with
  | [] => []
  | x :: xs' => match xs' with [] => x | _ :: _ => x ++ 32 :: join_sp xs' end
  end.

(** [s.split()]: the maximal whitespace-free blocks of [s], in order.
    Not called by the script; it describes what the normaliser computes. *)
Fixpoint tokens_from (cur : ustr) (s : ustr) : list ustr :=
  match s with
  | [] => match cur with [] => [] | _ :: _ => [cur] end
  | c :: s' =>
      if is_space c
      then match cur with
           | [] => tokens_from [] s'
           | _ :: _ => cur :: tokens_from [] s'
           end
      else tokens_from (cur ++ [c]) s'
  end.

Definition tokens (s : ustr) : list ustr := tokens_from [] s.

Definition nospace (s : ustr) : bool := forallb (fun c => negb (is_space c)) s.
Definition allspace (s : ustr) : bool := forallb is_space s.

Definition head_ok (s : ustr) : bool :=
  match s with [] => true | c :: _ => negb (is_space c) end.

Fixpoint last_ok (s : ustr) : bool :=
  match s with
  | [] => true
  | c :: s' => match s' with [] => negb (is_space c) | _ :: _ => last_ok s' end
  end.

Fixpoint no_adjacent_ws (s : ustr) : bool :=
  match s with
  | [] => true
  | c :: s' =>
      match s' with
      | [] => true
      | d :: _ => negb (is_space c && is_space d) && no_adjacent_ws s'
      end
  end.

(** A block: a non-empty string without whitespace. *)
Definition block (t : ustr) : Prop := t <> [] /\ nospace t = true.

(** ** The surface normaliser and the spreadsheet extractor *)

Abbreviation row := (list ustr).
Abbreviation path := string.

(** What [list(csv.reader(csv_path.open(...)))] gives for each path: the
    rows of the file, or [None] when opening, decoding or parsing raises. *)
Definition filesystem := path -> option (list row).

(** [r[0]], or the empty string for an empty row *)
Definition first_cell (r : row) : ustr :=
  match r with [] => [] | c :: _ => c end.

Fixpoint str_eqb (a b : ustr) : bool :=
  match a, b with
  | [], [] => true
  | x :: a', y :: b' => (x =? y) && str_eqb a' b'
  | _, _ => false
  end.

(** [x in xs] for a set or tuple of strings *)
Definition str_mem (x : ustr) (xs : list ustr) : bool := existsb (str_eqb x) xs.

Definition header_words : list ustr :=
  [ lit "word"; lit "words"; lit "surface"; lit "expression"; lit "lexeme";
    lit "lemma"; lit "lemmas"; lit "dictform"; lit "dict_form";
    lit "dictionaryform" ].

Definition header_keys : list ustr :=
  [ lit "word"; lit "surface"; lit "expression"; lit "lexeme"; lit "lemma";
    lit "morph"; lit "dictform"; lit "dict_form"; lit "hascard";
    lit "reading"; lit "translation" ].

(** [re.search(r"[\u3040-\u30ff\u3400-\u9fff]", value)] *)
Definition is_japanese (c : N) : bool :=
  ((0x3040 <=? c) && (c <=? 0x30ff)) || ((0x3400 <=? c) && (c <=? 0x9fff)).

Definition _has_japanese_chars (value : ustr) : bool := existsb is_japanese value.

Section Extractor.
(** [unicodedata.normalize("NFC", _)] *)
Variable nfc : ustr -> ustr.
(** [str.lower] *)
Variable lower : ustr -> ustr.

(** [value] is a [str], so the first step, [str(value or '')], gives
    [value] itself. *)
Definition _norm_surface (value : ustr) : ustr :=
  let s := strip value in
  let s := nfc s in
  let s := re_sub_ws s in
  s.

(** The loop of [_next_nonempty_first] over [rows[start:]]. *)
Fixpoint next_nonempty (rs : list row) : ustr :=
  match rs with
  | [] => []
  | r :: rs' =>
      let cell := _norm_surface (first_cell r) in
      if truthy cell then cell else next_nonempty rs'
  end.

Definition _next_nonempty_first (rows : list row) (start : nat) : ustr :=
  next_nonempty (drop start rows).

(** [None] is the [IndexError] of [rows[idx]]. *)
Definition _looks_like_header_row (rows : list row) (idx : nat) : option bool :=
  r ← rows !! idx;
  let first := _norm_surface (first_cell r) in
  if negb (truthy first) then Some false else
  let first_lc := lower first in
  if str_mem first_lc header_words then Some true else
  if search_az first_lc && existsb (fun k => py_in k first_lc) header_keys
  then Some true else
  if (1 <? length r)%nat
     && (let rest := _norm_surface (join_sp (tail r)) in
         search_AZaz first && search_AZaz rest
         && negb (_has_japanese_chars first) && negb (_has_japanese_chars rest))
  then Some true else
  if search_AZaz first && negb (_has_japanese_chars first)
     && (let next_first := _next_nonempty_first rows (idx + 1) in
         truthy next_first && _has_japanese_chars next_first)
  then Some true else
  Some false.

(** [while start_idx < len(rows) and _looks_like_header_row(start_idx):
    start_idx += 1].  [None] when the fuel runs out or the body raises. *)
Fixpoint header_loop (rows : list row) (fuel : nat) (start_idx : nat) : option nat :=
  match fuel with
  | O => None
  | S fuel' =>
      if (start_idx <? length rows)%nat then
        b ← _looks_like_header_row rows start_idx;
        if b : bool then header_loop rows fuel' (S start_idx) else Some start_idx
      else Some start_idx
  end.

(** The loop enters its body at most [len(rows)] times. *)
Definition header_rows (rows : list row) : option nat :=
  header_loop rows (S (length rows)) 0.

(** [for row in rows[start_idx:]: ... surfaces.append(s)] *)
Fixpoint collect (rs : list row) : list ustr :=
  match rs with
  | [] => []
  | row :: rs' =>
      let s := _norm_surface (first_cell row) in
      if truthy s then s :: collect rs' else collect rs'
  end.

Definition _csv_surfaces (fs : filesystem) (csv_path : path)
  : option (nat * list ustr) :=
  rows ← fs csv_path;
  match rows with
  | [] => Some (0%nat, [])
  | _ :: _ =>
      start_idx ← header_rows rows;
      Some (length rows, collect (drop start_idx rows))
  end.

Definition _csv_summary (fs : filesystem) (csv_path : path)
  : option (nat * nat * nat) :=
  '(n_lines, surfaces) ← _csv_surfaces fs csv_path;
  Some (n_lines, length surfaces, size (list_to_set surfaces : gset ustr)).

(** One turn of the loop of [_csv_union_unique_surfaces]. *)
Definition union_step (fs : filesystem) (union : gset ustr) (csv_path : path)
  : gset ustr :=
  match _csv_surfaces fs csv_path with
  | None => union
  | Some (_, surfaces) => union ∪ list_to_set surfaces
  end.

Definition _csv_union_unique_surfaces (fs : filesystem) (paths : list path) : nat :=
  size (foldl (union_step fs) ∅ paths).

(** The set of surfaces of a file and the number [_csv_summary] reports
    for it. *)
Definition surface_set (fs : filesystem) (p : path) : option (gset ustr) :=
  '(_, surfaces) ← _csv_surfaces fs p; Some (list_to_set surfaces).

Definition distinct_surface_count (fs : filesystem) (p : path) : option nat :=
  '(_, _, n_unique) ← _csv_summary fs p; Some n_unique.

(** The rows of the header property: the normalised first cell has a
    Latin letter and no logographic or kana character; it has a
    logographic or kana character; the second header rule
    (a Latin letter and a header keyword in the lowercased cell) fires. *)
Definition latin_label (r : row) : Prop :=
  search_AZaz (_norm_surface (first_cell r)) = true
  /\ _has_japanese_chars (_norm_surface (first_cell r)) = false.

Definition japanese_data (r : row) : Prop :=
  _has_japanese_chars (_norm_surface (first_cell r)) = true.

Definition keyword_label (r : row) : bool :=
  let first_lc := lower (_norm_surface (first_cell r)) in
  search_az first_lc && existsb (fun k => py_in k first_lc) header_keys.
End Extractor.

(** Two pairs of library functions agree on a row when they give the
    same normalised cells and the same lowercased first cell; this is all
    the extractor asks of them. *)
Definition agree_on (nfc lower nfc' lower' : ustr -> ustr) (r : row) : Prop :=
  _norm_surface nfc (first_cell r) = _norm_surface nfc' (first_cell r)
  /\ _norm_surface nfc (join_sp (tail r)) = _norm_surface nfc' (join_sp (tail r))
  /\ lower (_norm_surface nfc' (first_cell r))
     = lower' (_norm_surface nfc' (first_cell r)).

(** ** The configuration loaders *)

(** A Python [float]: not a number, an infinity, or the finite value
    [m * 2^e]. *)
Inductive pyfloat :=
| FNan
| FInf (negative : bool)
| FFinite (m e : Z).

(** What [json.loads] returns. *)
Unset Elimination Schemes.
Inductive json :=
| JNull
| JBool (b : bool)
| JInt (n : Z)
| JFloat (f : pyfloat)
| JStr (s : ustr)
| JList (xs : list json)
| JDict (kvs : list (ustr * json)).
Set Elimination Schemes.

(** The outcome of [cfg_path.read_text(...)] followed by [json.loads(raw)]:
    the read raises, the parse raises, or a value is parsed. *)
Inductive config_file :=
| Unreadable
| NotJson
| Parsed (parsed : json).

(** [d.get(k)]: the value bound to [k], or [None]. *)
Fixpoint dict_get (kvs : list (ustr * json)) (k : ustr) : json :=
  match kvs with
  | [] => JNull
  | (k', v) :: kvs' => if str_eqb k' k then v else dict_get kvs' k
  end.

(** [int(f)] for a float: truncation toward zero; [None] is the
    [OverflowError] or [ValueError] of an infinity or a NaN. *)
Definition float_trunc (f : pyfloat) : option Z :=
  match f with
  | FNan => None
  | FInf _ => None
  | FFinite m e => Some (if (0 <=? e)%Z then m * 2 ^ e else Z.quot m (2 ^ (- e)))%Z
  end.

Section Loaders.
(** [str(v)] for a number, a list or a dict *)
Variable py_repr : json -> ustr.
(** [int(s)] for a [str]; [None] is its [ValueError]. *)
Variable int_of_str : ustr -> option Z.

(** [str(v)] *)
Definition py_str (v : json) : ustr :=
  match v with
  | JNull => lit "None"
  | JBool true => lit "True"
  | JBool false => lit "False"
  | JStr s => s
  | _ => py_repr v
  end.

(** [int(v)]; [None] when it raises. *)
Definition py_int (v : json) : option Z :=
  match v with
  | JNull => None
  | JBool b => Some (if b then 1 else 0)%Z
  | JInt n => Some n
  | JFloat f => float_trunc f
  | JStr s => int_of_str s
  | JList _ => None
  | JDict _ => None
  end.

Definition _load_anki_profile (cfg : config_file) : ustr :=
  match cfg with
  | Unreadable => lit "User 1"
  | NotJson => lit "User 1"
  | Parsed parsed =>
      match parsed with
      | JDict d =>
          let prof := dict_get d (lit "anki_profile") in
          let s := strip (py_str prof) in
          if truthy s then s else lit "User 1"
      | _ => lit "User 1"
      end
  end.

Definition _load_ankimorphs_known_interval (cfg : config_file) : Z :=
  match cfg with
  | Unreadable => 21
  | NotJson => 21
  | Parsed parsed =>
      match parsed with
      | JDict d =>
          match dict_get d (lit "ankimorphs") with
          | JDict ankimorphs =>
              let v := dict_get ankimorphs (lit "known_interval_days") in
              let n := match py_int v with Some n => n | None => 21 end in
              if (0 <? n)%Z then n else 21
          | _ => 21
          end
      | _ => 21
      end
  end%Z.
End Loaders.

(** The threshold the settings give:
    [parsed["ankimorphs"]["known_interval_days"]] of a dict holding a dict
    under ["ankimorphs"]; [None] ([JNull]) when the inner key is absent. *)
Inductive threshold_of : config_file -> json -> Prop :=
| threshold_intro d a :
    dict_get d (lit "ankimorphs") = JDict a ->
    threshold_of (Parsed (JDict d)) (dict_get a (lit "known_interval_days")).

(** The settings give no usable profile name: the file cannot be read, is
    not JSON, is not a dict, or binds ["anki_profile"] to a string that is
    empty or all whitespace. *)
Inductive no_profile_name : config_file -> Prop :=
| npn_unreadable : no_profile_name Unreadable
| npn_not_json : no_profile_name NotJson
| npn_not_dict v : (forall d, v <> JDict d) -> no_profile_name (Parsed v)
| npn_blank d s :
    dict_get d (lit "anki_profile") = JStr s -> allspace s = true ->
    no_profile_name (Parsed (JDict d)).

(** Stand-ins for the two library functions where the settings hold no
    number, list or dict to print and no string to convert. *)
Definition repr_unused (v : json) : ustr := [].
Definition int_of_str_unused (s : ustr) : option Z := None.

(** [{"ankimorphs": {"known_interval_days": 3.5}}] *)
Definition cfg_fractional : config_file :=
  Parsed (JDict [(lit "ankimorphs",
                  JDict [(lit "known_interval_days", JFloat (FFinite 7 (-1)))])]).

(** [{"anki_profile": "  ", "ankimorphs": {"known_interval_days": 30}}] *)
Definition cfg_blank_profile : config_file :=
  Parsed (JDict [(lit "anki_profile", JStr [32; 32]);
                 (lit "ankimorphs",
                  JDict [(lit "known_interval_days", JInt 30)])]).

(** ** The statistics of the two stores *)

(** A column value: [None] is SQL [NULL]. *)
Definition sql_eqb {A} (eqb : A -> A -> bool) (a b : option A) : bool :=
  match a, b with
  | Some x, Some y => eqb x y
  | _, _ => false
  end.

(** [COUNT(DISTINCT col)]: the distinct non-NULL values. *)
Definition count_distinct {R} (col : R -> option ustr) (rows : list R) : nat :=
  size (list_to_set (omap col rows) : gset ustr).

(** *** The external store *)

Record morph := {
  m_lemma : option ustr;
  m_inflection : option ustr;
  highest_inflection_learning_interval : option Z
}.

Record morphs_table := {
  has_interval_column : bool;
  morph_rows : list morph
}.

(** [highest_inflection_learning_interval >= ?] *)
Definition interval_ge (t : Z) (r : morph) : bool :=
  match highest_inflection_learning_interval r with
  | Some x => (t <=? x)%Z
  | None => false
  end.

(** The integers the [sqlite3] module binds as a parameter; a larger one
    raises [OverflowError]. *)
Definition sqlite_int (t : Z) : bool := ((- 2 ^ 63 <=? t) && (t <? 2 ^ 63))%Z.

(** [(anki_row_count, anki_lemma_count, anki_surface_count)]; [None] when
    binding the threshold raises. *)
Definition anki_counts (tbl : morphs_table) (interval_days : Z)
  : option (nat * nat * nat) :=
  if has_interval_column tbl then
    if sqlite_int interval_days then
      let known := List.filter (interval_ge interval_days) (morph_rows tbl) in
      Some (length known, count_distinct m_lemma known,
            count_distinct m_inflection known)
    else None
  else
    Some (length (morph_rows tbl), count_distinct m_lemma (morph_rows tbl),
          count_distinct m_inflection (morph_rows tbl)).

(** *** The internal store *)

Record lexeme := { lx_id : option Z; normalized_surface : option ustr }.
Record lemma_row := { le_id : option Z; le_lemma : option ustr }.
Record lexeme_lemma := { ll_lexeme_id : option Z; ll_lemma_id : option Z }.

(** A table that does not exist is [None]. *)
Record tokei_db := {
  lexemes : option (list lexeme);
  lemmas : option (list lemma_row);
  lexeme_lemmas : option (list lexeme_lemma)
}.

(** [FROM lexemes l JOIN lexeme_lemmas ll ON ll.lexeme_id = l.id
    JOIN lemmas le ON le.id = ll.lemma_id], projected on
    [(l.normalized_surface, le.lemma)]. *)
Definition joined (ls : list lexeme) (lls : list lexeme_lemma)
  (les : list lemma_row) : list (option ustr * option ustr) :=
  flat_map (fun l =>
    flat_map (fun ll =>
      List.map (fun le => (normalized_surface l, le_lemma le))
        (List.filter (fun le => sql_eqb Z.eqb (le_id le) (ll_lemma_id ll)) les))
      (List.filter (fun ll => sql_eqb Z.eqb (ll_lexeme_id ll) (lx_id l)) lls))
    ls.

(** [WHERE l.normalized_surface != le.lemma] *)
Definition surface_ne_lemma (r : option ustr * option ustr) : bool :=
  sql_eqb (fun a b => negb (str_eqb a b)) (fst r) (snd r).

Definition changed_count (j : list (option ustr * option ustr)) : nat :=
  length (List.filter surface_ne_lemma j).

(** [GROUP BY le.lemma HAVING COUNT(DISTINCT l.normalized_surface) > 1],
    counted. *)
Definition collision_count (j : list (option ustr * option ustr)) : nat :=
  let groups := remove_dups (List.map snd j) in
  length (List.filter
    (fun g => (1 <? count_distinct fst
                      (List.filter (fun r => bool_decide (snd r = g)) j))%nat)
    groups).

(** [(tokei_surface_count, tokei_lemma_count, tokei_changed_surface_count,
    tokei_collision_lemma_count)]; [None] is the [OperationalError] of a
    join over a missing [lexemes] table. *)
Definition tokei_counts (db : tokei_db)
  : option (option nat * option nat * option nat * option nat) :=
  let tokei_surface_count := count_distinct normalized_surface <$> lexemes db in
  match lemmas db with
  | None => Some (tokei_surface_count, None, None, None)
  | Some les =>
      let tokei_lemma_count := count_distinct le_lemma les in
      match lexeme_lemmas db with
      | None => Some (tokei_surface_count, Some tokei_lemma_count, None, None)
      | Some lls =>
          ls ← lexemes db;
          let j := joined ls lls les in
          Some (tokei_surface_count, Some tokei_lemma_count,
                Some (changed_count j), Some (collision_count j))
      end
  end.

(** ** Instances of the library functions

    On strings of ASCII characters, kana and unified ideographs NFC is
    the identity, and [str.lower] only maps [A-Z] to [a-z]. *)
Definition nfc_inert (s : ustr) : ustr := s.

Definition lower_ascii (s : ustr) : ustr :=
  List.map (fun c => if (65 <=? c) && (c <=? 90) then c + 32 else c) s.

(** Characters on which NFC does nothing, wherever they stand among
    characters of the same kind: ASCII, the hiragana and katakana letters,
    the unified ideographs. *)
Definition nfc_inert_char (c : N) : bool :=
  (c <? 0x80) || ((0x3041 <=? c) && (c <=? 0x3096))
  || ((0x30A1 <=? c) && (c <=? 0x30FA)) || ((0x4E00 <=? c) && (c <=? 0x9FFF)).

(** Characters [str.lower] keeps: ASCII other than [A-Z], and the
    caseless characters of the logographic and kana ranges. *)
Definition lower_fixed_char (c : N) : bool :=
  ((c <? 0x80) && negb ((65 <=? c) && (c <=? 90))) || is_japanese c.

(** ** The scenarios of the specification *)

(** gakkou, taberu, hashiru, hashitta *)
Definition s_gakkou : ustr := [0x5B66; 0x6821].
Definition s_taberu : ustr := [0x98DF; 0x3079; 0x308B].
Definition s_hashiru : ustr := [0x8D70; 0x308B].
Definition s_hashitta : ustr := [0x8D70; 0x3063; 0x305F].

Definition rows_a : list row := [[lit "word"]; [s_gakkou]; [s_taberu]].
Definition rows_b : list row := [[s_taberu]; [s_hashiru]].

Definition fs_scenario_a : filesystem :=
  fun p => if String.eqb p "a.csv" then Some rows_a
           else if String.eqb p "b.csv" then Some rows_b
           else None.

Definition db_scenario_c (i1 i2 j : Z) : tokei_db := {|
  lexemes := Some [ {| lx_id := Some i1; normalized_surface := Some s_hashiru |};
                    {| lx_id := Some i2; normalized_surface := Some s_hashitta |} ];
  lemmas := Some [ {| le_id := Some j; le_lemma := Some s_hashiru |} ];
  lexeme_lemmas := Some [ {| ll_lexeme_id := Some i1; ll_lemma_id := Some j |};
                          {| ll_lexeme_id := Some i2; ll_lemma_id := Some j |} ]
|}.

(** A Latin label, then a first data row that holds a header keyword next
    to its ideographs ("word" followed by gakkou), then taberu. *)
Definition rows_keyword_data : list row :=
  [[lit "abc"]; [lit "word" ++ s_gakkou]; [s_taberu]].

(** A file system with the same rows under every path. *)
Definition fs_single (rows : list row) : filesystem := fun _ => Some rows.

(** Scenario B: three rows of lemma X with intervals 30, 10 and 25. *)
Definition morphs_scenario_b : morphs_table := {|
  has_interval_column := true;
  morph_rows :=
    [ {| m_lemma := Some (lit "X"); m_inflection := Some (lit "a");
         highest_inflection_learning_interval := Some 30%Z |};
      {| m_lemma := Some (lit "X"); m_inflection := Some (lit "b");
         highest_inflection_learning_interval := Some 10%Z |};
      {| m_lemma := Some (lit "X"); m_inflection := Some (lit "c");
         highest_inflection_learning_interval := Some 25%Z |} ]
|}.

(** ** Further inputs *)

(** A blank first row above a header label and a word. *)
Definition rows_blank_first : list row := [[lit " "]; [lit "word"]; [s_gakkou]].

(** Header labels only. *)
Definition rows_labels_only : list row := [[lit "Word"; lit "Reading"]; [lit "lemma"]].

(** The store of scenario C with a lemma row whose text is NULL joined to
    both lexemes. *)
Definition db_null_lemma : tokei_db := {|
  lexemes := Some [ {| lx_id := Some 1%Z; normalized_surface := Some s_hashiru |};
                    {| lx_id := Some 2%Z; normalized_surface := Some s_hashitta |} ];
  lemmas := Some [ {| le_id := Some 1%Z; le_lemma := None |} ];
  lexeme_lemmas := Some [ {| ll_lexeme_id := Some 1%Z; ll_lemma_id := Some 1%Z |};
                          {| ll_lexeme_id := Some 2%Z; ll_lemma_id := Some 1%Z |} ]
|}.

(** * src/tokei/tokei_errors.py and src/tokei/render_dashboard_html.py *)

(** ** Error kinds *)

Record ErrorKind := { kind_name : ustr; exit_code : Z }.

Definition CONFIG : ErrorKind := {| kind_name := lit "ConfigError"; exit_code := 10 |}.
Definition API : ErrorKind := {| kind_name := lit "ApiError"; exit_code := 11 |}.
Definition DATABASE : ErrorKind := {| kind_name := lit "DatabaseError"; exit_code := 12 |}.
Definition OUTPUT : ErrorKind := {| kind_name := lit "OutputError"; exit_code := 13 |}.

(** ** Decimal numerals *)

Fixpoint uint_codes (d : Decimal.uint) : ustr :=
  match d with
  | Decimal.Nil => []
  | Decimal.D0 d => 48 :: uint_codes d
  | Decimal.D1 d => 49 :: uint_codes d
  | Decimal.D2 d => 50 :: uint_codes d
  | Decimal.D3 d => 51 :: uint_codes d
  | Decimal.D4 d => 52 :: uint_codes d
  | Decimal.D5 d => 53 :: uint_codes d
  | Decimal.D6 d => 54 :: uint_codes d
  | Decimal.D7 d => 55 :: uint_codes d
  | Decimal.D8 d => 56 :: uint_codes d
  | Decimal.D9 d => 57 :: uint_codes d
  end.

Definition is_digit (c : N) : Prop := 48 <= c <= 57.

(** The decimal digits of a natural number, without leading zeros. *)
Definition dec (n : N) : ustr := uint_codes (N.to_uint n).

(** [sys.int_info.default_max_str_digits]: CPython refuses to print an
    [int] of more digits with a [ValueError]. *)
Definition int_max_str_digits : Z := 4300.

(** [str(v)] and [format(v, "d")] for an [int]; [None] is the
    [ValueError] of the digit limit. *)
Definition str_int (v : Z) : option ustr :=
  if (10 ^ int_max_str_digits <=? Z.abs v)%Z then None
  else Some ((if (v <? 0)%Z then [45] else []) ++ dec (Z.to_N (Z.abs v))).

(** [format(n, "02d")]: the sign and digits, a zero in front when that is
    one character only. *)
Definition fmt_02d (n : Z) : option ustr :=
  s ← str_int n;
  Some (if (length s <? 2)%nat then 48 :: s else s).

(** ** Python numbers among the JSON values *)

(** [round(f)] for a float: to the nearest integer, a tie to the even
    one; [None] is the [ValueError] of a NaN or the [OverflowError] of an
    infinity. *)
Definition float_round (f : pyfloat) : option Z :=
  match f with
  | FNan => None
  | FInf _ => None
  | FFinite m e =>
      Some (if (0 <=? e)%Z then m * 2 ^ e
            else
              let d := (2 ^ (- e))%Z in
              let q := (m / d)%Z in
              let r := (m mod d)%Z in
              if (2 * r <? d)%Z then q
              else if (d <? 2 * r)%Z then q + 1
              else if Z.even q then q else q + 1)%Z
  end.

(** [v < 0]; [None] is the [TypeError] of a value that is no number. *)
Definition py_lt0 (v : json) : option bool :=
  match v with
  | JBool _ => Some false
  | JInt n => Some (n <? 0)%Z
  | JFloat FNan => Some false
  | JFloat (FInf negative) => Some negative
  | JFloat (FFinite m _) => Some (m <? 0)%Z
  | _ => None
  end.

(** [round(v)]; [None] when it raises. *)
Definition py_round (v : json) : option Z :=
  match v with
  | JBool b => Some (if b then 1 else 0)%Z
  | JInt n => Some n
  | JFloat f => float_round f
  | _ => None
  end.

(** Truthiness of a value, and [v or default]. *)
Definition json_truthy (v : json) : bool :=
  match v with
  | JNull => false
  | JBool b => b
  | JInt n => negb (n =? 0)%Z
  | JFloat (FFinite m _) => negb (m =? 0)%Z
  | JFloat _ => true
  | JStr s => truthy s
  | JList xs => match xs with [] => false | _ :: _ => true end
  | JDict kvs => match kvs with [] => false | _ :: _ => true end
  end.

Definition py_or (v default : json) : json :=
  if json_truthy v then v else default.

(** [d[k] = v]: the binding of [k] is replaced where it stands, or added
    at the end. *)
Fixpoint dict_set (kvs : list (ustr * json)) (k : ustr) (v : json)
  : list (ustr * json) :=
  match kvs with
  | [] => [(k, v)]
  | (k', v') :: kvs' =>
      if str_eqb k' k then (k', v) :: kvs' else (k', v') :: dict_set kvs' k v
  end.

(** [k in d] *)
Fixpoint dict_has (kvs : list (ustr * json)) (k : ustr) : bool :=
  match kvs with
  | [] => false
  | (k', _) :: kvs' => str_eqb k' k || dict_has kvs' k
  end.

(** ** [format_hms] *)

(** [None] when the function raises: [total_seconds] is no number, is a
    NaN or an infinity, or the hours have more digits than CPython
    prints. *)
Definition format_hms (total_seconds : json) : option ustr :=
  negative ← py_lt0 total_seconds;
  let sign := if negative : bool then lit "-" else [] in
  r ← py_round total_seconds;
  let s := Z.abs r in
  let h := (s / 3600)%Z in
  let m := ((s mod 3600) / 60)%Z in
  let sec := (s mod 60)%Z in
  hh ← str_int h;
  mm ← fmt_02d m;
  ss ← fmt_02d sec;
  Some (sign ++ hh ++ lit ":" ++ mm ++ lit ":" ++ ss).

(** Reading a printed duration back.  Not part of the script: it shows
    that the printed form determines the number of seconds. *)
Fixpoint codes_uint (s : ustr) : option Decimal.uint :=
  match s with
  | [] => Some Decimal.Nil
  | c :: s' =>
      d ← codes_uint s';
      if c =? 48 then Some (Decimal.D0 d) else
      if c =? 49 then Some (Decimal.D1 d) else
      if c =? 50 then Some (Decimal.D2 d) else
      if c =? 51 then Some (Decimal.D3 d) else
      if c =? 52 then Some (Decimal.D4 d) else
      if c =? 53 then Some (Decimal.D5 d) else
      if c =? 54 then Some (Decimal.D6 d) else
      if c =? 55 then Some (Decimal.D7 d) else
      if c =? 56 then Some (Decimal.D8 d) else
      if c =? 57 then Some (Decimal.D9 d) else None
  end.

Definition undec (s : ustr) : option Z :=
  d ← codes_uint s; Some (Z.of_N (N.of_uint d)).

(** The text before the first colon, and the text after it. *)
Fixpoint cut_colon (s : ustr) : ustr * ustr :=
  match s with
  | [] => ([], [])
  | c :: s' =>
      if c =? 58 then ([], s')
      else let '(a, b) := cut_colon s' in (c :: a, b)
  end.

Definition read_hms_body (negative : bool) (body : ustr) : option Z :=
  let '(hh, rest) := cut_colon body in
  let '(mm, ss) := cut_colon rest in
  h ← undec hh; m ← undec mm; sec ← undec ss;
  let s := (h * 3600 + m * 60 + sec)%Z in
  Some (if negative then (- s)%Z else s).

Definition read_hms (t : ustr) : option Z :=
  match t with
  | c :: t' => if c =? 45 then read_hms_body true t' else read_hms_body false t
  | [] => read_hms_body false []
  end.

(** ** [format_k] and [format_chars] *)

Inductive pyexn := TypeError | ValueError | OverflowError.

(** What a call does: it returns a value or raises. *)
Inductive outcome (A : Type) :=
| Returns (a : A)
| Raises (e : pyexn).
Arguments Returns {A} a.
Arguments Raises {A} e.

(** [s.rstrip(c)] for a one-character [c] *)
Fixpoint rstrip_char (c : N) (s : ustr) : ustr :=
  match s with
  | [] => []
  | x :: s' =>
      match rstrip_char c s' with
      | [] => if x =? c then [] else [x]
      | r => x :: r
      end
  end.

Section Formatters.
(** [int(s)] for a [str]; [None] is its [ValueError]. *)
Variable int_of_str : ustr -> option Z.
(** [f"{v/1000:.1f}"] for an [int] [v]; [None] is the [OverflowError] of
    a quotient too large for a float. *)
Variable fmt_thousands : Z -> option ustr.
(** [f"{v/1_000_000.0:.2f}"] for an [int] [v]; [None] is the
    [OverflowError] of an [int] too large for a float. *)
Variable fmt_millions : Z -> option ustr.

(** [int(value)], with the exception it raises. *)
Definition int_outcome (value : json) : outcome Z :=
  match value with
  | JNull => Raises TypeError
  | JBool b => Returns (if b then 1 else 0)%Z
  | JInt n => Returns n
  | JFloat FNan => Raises ValueError
  | JFloat (FInf _) => Raises OverflowError
  | JFloat (FFinite m e) =>
      Returns (if (0 <=? e)%Z then m * 2 ^ e else Z.quot m (2 ^ (- e)))%Z
  | JStr s => match int_of_str s with Some n => Returns n | None => Raises ValueError end
  | JList _ => Raises TypeError
  | JDict _ => Raises TypeError
  end.

Definition format_k (value : json) : outcome ustr :=
  match value with
  | JNull => Returns (lit "?")
  | _ =>
      match int_outcome value with
      | Raises TypeError => Returns (lit "?")
      | Raises ValueError => Returns (lit "?")
      | Raises e => Raises e
      | Returns v =>
          if (1000 <=? v)%Z then
            match fmt_thousands v with
            | Some text => Returns (text ++ lit "k")
            | None => Raises OverflowError
            end
          else
            match str_int v with
            | Some text => Returns text
            | None => Raises ValueError
            end
      end
  end.

Definition format_chars (value : json) : outcome ustr :=
  match value with
  | JNull => Returns (lit "?")
  | _ =>
      match int_outcome value with
      | Raises TypeError => Returns (lit "?")
      | Raises ValueError => Returns (lit "?")
      | Raises e => Raises e
      | Returns v =>
          if (1000000 <=? v)%Z then
            match fmt_millions v with
            | Some millions =>
                let text := rstrip_char 46 (rstrip_char 48 millions) in
                Returns (text ++ lit "M")
            | None => Raises OverflowError
            end
          else format_k (JInt v)
      end
  end.
End Formatters.

(** ** [main] of the renderer *)

(** What [main] finds at [argv[1]]: no regular file, a file that
    [json.load] rejects (or that cannot be read), or a JSON value. *)
Inductive stats_source :=
| NotAFile
| LoadFails
| Loaded (stats : json).

Section Renderer.
Variable int_of_str : ustr -> option Z.
(** [env.get_template(...)] and [template.render(stats=stats, ...)]:
    the document, or [None] when one of them raises. *)
Variable render_template : list (ustr * json) -> option ustr.

(** The convenience fields [main] adds to the statistics; [None] when a
    step raises ([today_immersion] is truthy and no dict, a value is no
    number, ...). *)
Definition add_convenience_fields (stats : list (ustr * json))
  : option (list (ustr * json)) :=
  match py_or (dict_get stats (lit "today_immersion")) (JDict []) with
  | JDict today =>
      let total_today_seconds :=
        py_or (dict_get today (lit "total_seconds")) (JInt 0) in
      total_hms ← format_hms total_today_seconds;
      let today := dict_set today (lit "total_hms") (JStr total_hms) in
      let stats := dict_set stats (lit "today_immersion") (JDict today) in
      avg_seconds ←
        py_int int_of_str
          (py_or (dict_get stats (lit "avg_immersion_seconds")) (JInt 0));
      avg_hms ← format_hms (JInt avg_seconds);
      let stats := dict_set stats (lit "avg_immersion_hms") (JStr avg_hms) in
      delta_avg_seconds ←
        py_int int_of_str
          (py_or (dict_get stats (lit "avg_immersion_delta_seconds")) (JInt 0));
      delta_hms ← format_hms (JInt delta_avg_seconds);
      let stats := dict_set stats (lit "avg_immersion_delta_hms") (JStr delta_hms) in
      Some stats
  | _ => None
  end.

(** [main(argv)]: the exit code and the document written, if any;
    [None] when an exception escapes.  [can_write] says whether creating
    the directory and writing the file succeed. *)
Definition main (argv : list ustr) (source : stats_source) (can_write : bool)
  : option (Z * option ustr) :=
  if negb (length argv =? 3)%nat then Some (exit_code CONFIG, None) else
  match source with
  | NotAFile => Some (exit_code OUTPUT, None)
  | LoadFails => Some (exit_code OUTPUT, None)
  | Loaded (JDict stats) =>
      stats ← add_convenience_fields stats;
      html ← render_template stats;
      if can_write then Some (0%Z, Some html) else None
  | Loaded _ => Some (exit_code OUTPUT, None)
  end.
End Renderer.

(** [{"today_immersion": {"total_seconds": 3725}, "avg_immersion_seconds": 59.6}] *)
Definition stats_example : list (ustr * json) :=
  [ (lit "today_immersion", JDict [(lit "total_seconds", JInt 3725)]);
    (lit "avg_immersion_seconds", JFloat (FFinite 149 (-2)%Z)) ].

(** ** Whitespace structure of strings *)

Lemma is_space_32 : is_space 32 = true.
Proof. reflexivity. Qed.

Lemma tokens_from_nospace a : forall cur,
  nospace a = true ->
  tokens_from cur a = match cur ++ a with [] => [] | _ :: _ => [cur ++ a] end.
Proof.
  induction a as [|c a IH]; intros cur Ha; simpl in *.
  - rewrite app_nil_r. reflexivity.
  - apply andb_prop in Ha as [Hc Ha]. apply negb_true_iff in Hc.
    rewrite Hc, IH by assumption. rewrite <- app_assoc. reflexivity.
Qed.

Lemma tokens_from_app_space a : forall cur w b,
  nospace a = true -> is_space w = true ->
  tokens_from cur (a ++ w :: b) =
  match cur ++ a with [] => tokens b | _ :: _ => (cur ++ a) :: tokens b end.
Proof.
  induction a as [|c a IH]; intros cur w b Ha Hw; simpl in *.
  - rewrite Hw, app_nil_r. reflexivity.
  - apply andb_prop in Ha as [Hc Ha]. apply negb_true_iff in Hc.
    rewrite Hc, IH by assumption. rewrite <- app_assoc. reflexivity.
Qed.

(** Every string is whitespace free or splits at its first whitespace
    character. *)
Lemma first_space_split (s : ustr) :
  nospace s = true \/
  exists a w b, s = a ++ w :: b /\ nospace a = true /\ is_space w = true.
Proof.
  induction s as [|c s IH]; [left; reflexivity|].
  destruct (is_space c) eqn:Hc.
  - right. exists [], c, s. auto.
  - destruct IH as [IH | (a & w & b & -> & Ha & Hw)].
    + left. simpl. rewrite Hc. assumption.
    + right. exists (c :: a), w, b. simpl. rewrite Hc. auto.
Qed.

(** ... and at its last one. *)
Lemma last_space_split (s : ustr) :
  nospace s = true \/
  exists a w b, s = a ++ w :: b /\ nospace b = true /\ is_space w = true.
Proof.
  induction s as [|c s IH]; [left; reflexivity|].
  destruct IH as [IH | (a & w & b & -> & Hb & Hw)].
  - destruct (is_space c) eqn:Hc.
    + right. exists [], c, s. auto.
    + left. simpl. rewrite Hc. assumption.
  - right. exists (c :: a), w, b. auto.
Qed.

Lemma head_ok_app a b : a <> [] -> head_ok (a ++ b) = head_ok a.
Proof. destruct a; [congruence | reflexivity]. Qed.

Lemma last_ok_app a b : b <> [] -> last_ok (a ++ b) = last_ok b.
Proof.
  intros Hb. induction a as [|c a IH]; [reflexivity|].
  simpl. destruct (a ++ b) eqn:E.
  - apply app_eq_nil in E as [_ ->]. congruence.
  - exact IH.
Qed.

Lemma last_ok_cons c r : r <> [] -> last_ok (c :: r) = last_ok r.
Proof. destruct r; [congruence | reflexivity]. Qed.

Lemma nospace_head_ok s : nospace s = true -> head_ok s = true.
Proof. destruct s; simpl; [reflexivity|]. intros H. apply andb_prop in H. tauto. Qed.

Lemma nospace_last_ok s : nospace s = true -> last_ok s = true.
Proof.
  induction s as [|c s IH]; [reflexivity|]. simpl. intros H.
  apply andb_prop in H as [Hc Hs]. destruct s; [assumption | auto].
Qed.

Lemma nospace_app a b : nospace (a ++ b) = nospace a && nospace b.
Proof. apply forallb_app. Qed.

(** *** Stripping *)

Lemma tokens_lstrip s : tokens (lstrip s) = tokens s.
Proof.
  unfold tokens. induction s as [|c s IH]; [reflexivity|].
  simpl. destruct (is_space c) eqn:Hc; [exact IH|].
  simpl. rewrite Hc. reflexivity.
Qed.

Lemma tokens_from_rstrip s : forall cur,
  tokens_from cur (rstrip s) = tokens_from cur s.
Proof.
  induction s as [|c s IH]; intros cur; [reflexivity|].
  simpl. destruct (rstrip s) as [|d r] eqn:E.
  - destruct (is_space c) eqn:Hc; simpl.
    + rewrite <- (IH []). destruct cur; reflexivity.
    + rewrite Hc. rewrite <- IH. reflexivity.
  - simpl. destruct (is_space c) eqn:Hc.
    + rewrite <- (IH []). reflexivity.
    + rewrite <- IH. reflexivity.
Qed.

Lemma tokens_strip s : tokens (strip s) = tokens s.
Proof.
  unfold strip, tokens. rewrite tokens_from_rstrip. apply tokens_lstrip.
Qed.

Lemma head_ok_lstrip s : head_ok (lstrip s) = true.
Proof.
  induction s as [|c s IH]; [reflexivity|].
  simpl. destruct (is_space c) eqn:Hc; [exact IH|]. simpl. rewrite Hc. reflexivity.
Qed.

Lemma head_ok_rstrip s : head_ok s = true -> head_ok (rstrip s) = true.
Proof.
  destruct s as [|c s]; [reflexivity|]. simpl. intros Hc.
  destruct (rstrip s); [|exact Hc].
  apply negb_true_iff in Hc. rewrite Hc. simpl. rewrite Hc. reflexivity.
Qed.

Lemma last_ok_rstrip s : last_ok (rstrip s) = true.
Proof.
  induction s as [|c s IH]; [reflexivity|].
  simpl. destruct (rstrip s) as [|d r] eqn:E.
  - destruct (is_space c) eqn:Hc; simpl; [reflexivity | rewrite Hc; reflexivity].
  - exact IH.
Qed.

Lemma strip_trimmed s : head_ok (strip s) = true /\ last_ok (strip s) = true.
Proof.
  unfold strip. split.
  - apply head_ok_rstrip, head_ok_lstrip.
  - apply last_ok_rstrip.
Qed.

Lemma lstrip_id s : head_ok s = true -> lstrip s = s.
Proof.
  destruct s as [|c s]; [reflexivity|]. simpl. intros H.
  apply negb_true_iff in H. rewrite H. reflexivity.
Qed.

Lemma rstrip_id s : last_ok s = true -> rstrip s = s.
Proof.
  induction s as [|c s IH]; [reflexivity|]. simpl. intros H.
  destruct s as [|d s].
  - simpl. apply negb_true_iff in H. rewrite H. reflexivity.
  - rewrite (IH H). reflexivity.
Qed.

Lemma strip_id s : head_ok s = true -> last_ok s = true -> strip s = s.
Proof.
  intros Hh Hl. unfold strip. rewrite (lstrip_id s Hh). apply rstrip_id, Hl.
Qed.

(** *** Collapsing whitespace runs *)

Lemma tokens_from_nonempty s : forall cur,
  s <> [] -> last_ok s = true -> tokens_from cur s <> [].
Proof.
  induction s as [|c s IH]; intros cur Hne Hl; [congruence|].
  simpl in *. destruct s as [|d s].
  - apply negb_true_iff in Hl. rewrite Hl. simpl.
    destruct cur; simpl; congruence.
  - destruct (is_space c).
    + destruct cur; [apply IH; [congruence | exact Hl] | congruence].
    + apply IH; [congruence | exact Hl].
Qed.

Lemma join_sp_cons x xs :
  xs <> [] -> join_sp (x :: xs) = x ++ 32 :: join_sp xs.
Proof. destruct xs; [congruence | reflexivity]. Qed.

(** On a trimmed string, [re.sub(r"\s+", " ", _)] joins the blocks with
    single spaces. *)
Lemma sub_ws_runs_tokens s :
  (forall cur, last_ok s = true -> (cur <> [] \/ head_ok s = true) ->
     cur ++ sub_ws_runs false s = join_sp (tokens_from cur s))
  /\ (last_ok s = true -> sub_ws_runs true s = join_sp (tokens_from [] s)).
Proof.
  induction s as [|c s [IH1 IH2]]; split.
  - intros cur _ _. simpl. rewrite app_nil_r. destruct cur; reflexivity.
  - reflexivity.
  - intros cur Hl Hh. simpl. destruct (is_space c) eqn:Hc.
    + assert (Hs : s <> []).
      { intros ->. simpl in Hl. rewrite Hc in Hl. discriminate. }
      assert (Hl' : last_ok s = true).
      { destruct s; [congruence | exact Hl]. }
      destruct cur as [|k cur].
      * destruct Hh as [Hh | Hh]; [congruence|].
        simpl in Hh. rewrite Hc in Hh. discriminate.
      * rewrite join_sp_cons by (apply tokens_from_nonempty; assumption).
        rewrite (IH2 Hl'). reflexivity.
    + assert (Hl' : last_ok s = true).
      { destruct s; [reflexivity | exact Hl]. }
      rewrite <- IH1; [| exact Hl' | left; destruct cur; discriminate].
      rewrite <- app_assoc. reflexivity.
  - intros Hl. simpl. destruct (is_space c) eqn:Hc.
    + destruct s as [|d s]; [reflexivity|]. apply IH2. exact Hl.
    + assert (Hl' : last_ok s = true).
      { destruct s; [reflexivity | exact Hl]. }
      rewrite <- (IH1 [c]); [reflexivity | exact Hl' | left; discriminate].
Qed.

Lemma re_sub_ws_trimmed s :
  head_ok s = true -> last_ok s = true -> re_sub_ws s = join_sp (tokens s).
Proof.
  intros Hh Hl. destruct (sub_ws_runs_tokens s) as [H _].
  specialize (H [] Hl (or_intror Hh)). exact H.
Qed.

(** *** Blocks joined by single spaces *)

Lemma tokens_from_blocks s : forall cur,
  nospace cur = true -> Forall block (tokens_from cur s).
Proof.
  induction s as [|c s IH]; intros cur Hcur; simpl.
  - destruct cur; constructor; [split; [discriminate | exact Hcur] | constructor].
  - destruct (is_space c) eqn:Hc.
    + destruct cur; [apply IH; reflexivity|].
      constructor; [split; [discriminate | exact Hcur] | apply IH; reflexivity].
    + apply IH. rewrite nospace_app, Hcur. simpl. rewrite Hc. reflexivity.
Qed.

Lemma tokens_blocks s : Forall block (tokens s).
Proof. apply tokens_from_blocks. reflexivity. Qed.

Lemma tokens_join_sp ts : Forall block ts -> tokens (join_sp ts) = ts.
Proof.
  induction 1 as [|t ts [Hne Hns] Hts IH]; [reflexivity|].
  destruct ts as [|t' ts].
  - simpl. unfold tokens. rewrite tokens_from_nospace by exact Hns.
    simpl. destruct t; [congruence | reflexivity].
  - rewrite join_sp_cons by discriminate. unfold tokens at 1.
    rewrite tokens_from_app_space by (exact Hns || reflexivity).
    rewrite IH. simpl. destruct t; [congruence | reflexivity].
Qed.

Lemma join_sp_nil_iff ts : Forall block ts -> join_sp ts = [] <-> ts = [].
Proof.
  intros H. split; [|intros ->; reflexivity].
  destruct H as [|t ts [Hne _] _]; [reflexivity|].
  destruct ts; simpl; [congruence|]. intros E. apply app_eq_nil in E as [E _]. congruence.
Qed.

Lemma tokens_from_nil s : forall cur,
  tokens_from cur s = [] -> cur = [] /\ allspace s = true.
Proof.
  induction s as [|c s IH]; intros cur E; simpl in *.
  - destruct cur; [split; reflexivity | discriminate].
  - destruct (is_space c) eqn:Hc.
    + destruct cur; [|discriminate]. destruct (IH [] E) as [_ Hs]. auto.
    + destruct (IH _ E) as [Hcur _]. destruct cur; discriminate.
Qed.

Lemma tokens_nil_iff s : tokens s = [] <-> allspace s = true.
Proof.
  unfold tokens. split.
  - intros E. apply tokens_from_nil in E. tauto.
  - induction s as [|c s IH]; [reflexivity|]. simpl. intros H.
    apply andb_prop in H as [Hc Hs]. rewrite Hc. auto.
Qed.

Lemma no_adjacent_block_app a r :
  nospace a = true -> head_ok r = true -> no_adjacent_ws r = true ->
  no_adjacent_ws (a ++ 32 :: r) = true.
Proof.
  intros Ha Hr Hadj. induction a as [|c a IH]; simpl in *.
  - destruct r as [|d r]; [reflexivity|]. simpl in Hr.
    apply negb_true_iff in Hr. rewrite Hr, Hadj. reflexivity.
  - apply andb_prop in Ha as [Hc Ha]. apply negb_true_iff in Hc.
    specialize (IH Ha). destruct (a ++ 32 :: r) eqn:E; [reflexivity|].
    rewrite Hc, IH. reflexivity.
Qed.

Lemma nospace_no_adjacent a : nospace a = true -> no_adjacent_ws a = true.
Proof.
  induction a as [|c a IH]; [reflexivity|]. simpl. intros H.
  apply andb_prop in H as [Hc Ha]. apply negb_true_iff in Hc.
  destruct a; [reflexivity|]. rewrite Hc, (IH Ha). reflexivity.
Qed.

Lemma join_sp_shape ts :
  Forall block ts ->
  head_ok (join_sp ts) = true /\ last_ok (join_sp ts) = true
  /\ no_adjacent_ws (join_sp ts) = true.
Proof.
  induction 1 as [|t ts [Hne Hns] Hts (IHh & IHl & IHa)]; [repeat split|].
  destruct ts as [|t' ts].
  - simpl. auto using nospace_head_ok, nospace_last_ok, nospace_no_adjacent.
  - rewrite join_sp_cons by discriminate.
    assert (Hj : join_sp (t' :: ts) <> []).
    { intros E. apply join_sp_nil_iff in E; [discriminate | exact Hts]. }
    repeat split.
    + rewrite head_ok_app by exact Hne. apply nospace_head_ok, Hns.
    + rewrite last_ok_app by discriminate.
      rewrite last_ok_cons by exact Hj. exact IHl.
    + apply no_adjacent_block_app; assumption.
Qed.

(** ** The normaliser, block by block *)

Section NormalizerLaws.
Variable nfc : ustr -> ustr.

  (** What the proofs use of Unicode canonical composition.  Whitespace
      characters are starters that take part in no canonical composition,
      so NFC works separately on the text before and after one, and keeps
      a whitespace character there (U+2000 and U+2001 become U+2002 and
      U+2003). *)
Hypothesis nfc_around_space : forall a w b,
    is_space w = true ->
    exists w', is_space w' = true /\ nfc (a ++ w :: b) = nfc a ++ w' :: nfc b.
  (** No canonical decomposition or composition yields a whitespace
      character from other characters. *)
Hypothesis nfc_nospace : forall s, nospace s = true -> nospace (nfc s) = true.
  (** NFC deletes nothing. *)
Hypothesis nfc_nil : forall s, nfc s = [] <-> s = [].
  (** NFC is a normal form. *)
Hypothesis nfc_idem : forall s, nfc (nfc s) = nfc s.

Lemma nfc_block t : block t -> block (nfc t).
  Proof.
    intros [Hne Hns]. split; [|apply nfc_nospace, Hns].
    intros E. apply Hne. apply (proj1 (nfc_nil t)), E.
  Qed.

Lemma tokens_nfc_nospace a :
    nospace a = true -> tokens (nfc a) = List.map nfc (tokens a).
  Proof.
    intros Ha. unfold tokens.
    rewrite !tokens_from_nospace by auto. simpl.
    destruct a as [|c a].
    - replace (nfc []) with (@nil N) by (symmetry; apply (proj2 (nfc_nil [])); reflexivity).
      reflexivity.
    - simpl. destruct (nfc (c :: a)) eqn:E; [|reflexivity].
      apply (proj1 (nfc_nil _)) in E. discriminate.
  Qed.

Lemma tokens_nfc t : tokens (nfc t) = List.map nfc (tokens t).
  Proof.
    remember (length t) as n eqn:Hn. revert t Hn.
    induction n as [n IH] using lt_wf_ind. intros t Hn.
    destruct (first_space_split t) as [Ht | (a & w & b & -> & Ha & Hw)].
    - apply tokens_nfc_nospace, Ht.
    - destruct (nfc_around_space a w b Hw) as (w' & Hw' & ->).
      assert (IHb : tokens (nfc b) = List.map nfc (tokens b)).
      { apply (IH (length b)); [|reflexivity].
        subst n. rewrite length_app. simpl. lia. }
      unfold tokens at 1 2.
      rewrite !tokens_from_app_space by auto. rewrite IHb.
      destruct a as [|c a].
      + replace (nfc []) with (@nil N) by (symmetry; apply (proj2 (nfc_nil [])); reflexivity).
        reflexivity.
      + simpl. destruct (nfc (c :: a)) eqn:E; [|reflexivity].
        apply (proj1 (nfc_nil _)) in E. discriminate.
  Qed.

Lemma nfc_head_ok t : head_ok t = true -> head_ok (nfc t) = true.
  Proof.
    intros Hh. destruct (first_space_split t) as [Ht | (a & w & b & -> & Ha & Hw)].
    - apply nospace_head_ok, nfc_nospace, Ht.
    - destruct (nfc_around_space a w b Hw) as (w' & Hw' & ->).
      destruct a as [|c a].
      + simpl in Hh. rewrite Hw in Hh. discriminate.
      + assert (Hb : block (nfc (c :: a))) by (apply nfc_block; split; [discriminate | exact Ha]).
        destruct Hb as [Hne Hns]. rewrite head_ok_app by exact Hne.
        apply nospace_head_ok, Hns.
  Qed.

Lemma nfc_last_ok t : last_ok t = true -> last_ok (nfc t) = true.
  Proof.
    intros Hl. destruct (last_space_split t) as [Ht | (a & w & b & -> & Hb & Hw)].
    - apply nospace_last_ok, nfc_nospace, Ht.
    - destruct (nfc_around_space a w b Hw) as (w' & Hw' & ->).
      rewrite last_ok_app in Hl |- * by discriminate.
      destruct b as [|c b].
      + simpl in Hl. rewrite Hw in Hl. discriminate.
      + assert (Hb' : block (nfc (c :: b))) by (apply nfc_block; split; [discriminate | exact Hb]).
        destruct Hb' as [Hne Hns]. rewrite last_ok_cons by exact Hne.
        apply nospace_last_ok, Hns.
  Qed.

  (** The normaliser maps a string to its blocks, each in NFC, joined by
      single spaces. *)
Lemma _norm_surface_tokens s :
    _norm_surface nfc s = join_sp (List.map nfc (tokens s)).
  Proof.
    unfold _norm_surface. destruct (strip_trimmed s) as [Hh Hl].
    rewrite re_sub_ws_trimmed;
      [| exact (nfc_head_ok _ Hh) | exact (nfc_last_ok _ Hl)].
    rewrite tokens_nfc, tokens_strip. reflexivity.
  Qed.

Lemma nfc_tokens_blocks s : Forall block (List.map nfc (tokens s)).
  Proof.
    generalize (tokens_blocks s). induction 1; simpl; constructor; auto using nfc_block.
  Qed.

Lemma _norm_surface_nil_iff s :
    _norm_surface nfc s = [] <-> allspace s = true.
  Proof.
    rewrite _norm_surface_tokens, (join_sp_nil_iff _ (nfc_tokens_blocks s)).
    rewrite <- tokens_nil_iff. split.
    - apply map_eq_nil.
    - intros ->. reflexivity.
  Qed.
(** C3. The normaliser is idempotent:
    [_norm_surface (_norm_surface s) = _norm_surface s] for every string
    [s], where NFC is any function with the four properties above. *)
Theorem norm_surface_idempotent s :
  _norm_surface nfc (_norm_surface nfc s) = _norm_surface nfc s.
Proof.
  rewrite (_norm_surface_tokens s), _norm_surface_tokens.
  rewrite (tokens_join_sp _ (nfc_tokens_blocks s)).
  f_equal. rewrite List.map_map. apply List.map_ext. intros t. apply nfc_idem.
Qed.

(** C9. The normaliser returns the empty string exactly on the strings
    that are empty or all whitespace; on every other string its result is
    non-empty, neither starts nor ends with whitespace and has no two
    adjacent whitespace characters. *)
Theorem norm_surface_empty_iff_blank s :
  (_norm_surface nfc s = [] <-> allspace s = true)
  /\ (allspace s = false ->
      _norm_surface nfc s <> []
      /\ head_ok (_norm_surface nfc s) = true
      /\ last_ok (_norm_surface nfc s) = true
      /\ no_adjacent_ws (_norm_surface nfc s) = true).
Proof.
  split; [apply _norm_surface_nil_iff|].
  intros Hs. split.
  - intros E. apply _norm_surface_nil_iff in E. congruence.
  - rewrite _norm_surface_tokens. apply join_sp_shape, nfc_tokens_blocks.
Qed.
End NormalizerLaws.

(** The identity has the four properties. *)
Lemma nfc_inert_around_space a w b :
  is_space w = true ->
  exists w', is_space w' = true
    /\ nfc_inert (a ++ w :: b) = nfc_inert a ++ w' :: nfc_inert b.
Proof. intros Hw. exists w. split; [exact Hw | reflexivity]. Qed.

Lemma nfc_inert_nospace s : nospace s = true -> nospace (nfc_inert s) = true.
Proof. intros H. exact H. Qed.

Lemma nfc_inert_nil s : nfc_inert s = [] <-> s = [].
Proof. reflexivity. Qed.

Lemma nfc_inert_idem s : nfc_inert (nfc_inert s) = nfc_inert s.
Proof. reflexivity. Qed.

(** "  a b  c " with a tab, a line feed and an ideographic space. *)
Lemma norm_surface_idempotent_witness :
  _norm_surface nfc_inert
    (_norm_surface nfc_inert [32; 0x3000; 97; 9; 10; 98; 32; 32; 99; 32])
  = [97; 32; 98; 32; 99].
Proof.
  rewrite (norm_surface_idempotent nfc_inert nfc_inert_around_space
             nfc_inert_nospace nfc_inert_nil nfc_inert_idem).
  reflexivity.
Defined.

Lemma norm_surface_empty_iff_blank_witness :
  _norm_surface nfc_inert [32; 9; 0x3000] = []
  /\ _norm_surface nfc_inert [32; 97; 9; 10; 98; 32] <> [].
Proof.
  split.
  - apply (norm_surface_empty_iff_blank nfc_inert nfc_inert_around_space
             nfc_inert_nospace nfc_inert_nil). reflexivity.
  - apply (norm_surface_empty_iff_blank nfc_inert nfc_inert_around_space
             nfc_inert_nospace nfc_inert_nil). reflexivity.
Defined.

(** ** The extractor *)

Lemma size_list_to_set_le (l : list ustr) :
  (size (list_to_set l : gset ustr) <= length l)%nat.
Proof.
  induction l as [|x l IH].
  - rewrite list_to_set_nil, size_empty. simpl. lia.
  - rewrite list_to_set_cons, size_union_alt, size_singleton. simpl.
    assert (Hle : (size (list_to_set l ∖ {[x]} : gset ustr)
                   <= size (list_to_set l : gset ustr))%nat)
      by (apply subseteq_size, subseteq_difference_l; reflexivity).
    lia.
Qed.

Section ExtractorFacts.
Variable nfc : ustr -> ustr.
Variable lower : ustr -> ustr.

Lemma _looks_like_header_row_total rows idx r :
  rows !! idx = Some r ->
  exists b, _looks_like_header_row nfc lower rows idx = Some b.
Proof.
  intros Hr. unfold _looks_like_header_row. rewrite Hr. simpl.
  repeat match goal with
         | |- context [if ?c then _ else _] => destruct c
         end; eauto.
Qed.

(** The header loop returns: its fuel is enough. *)
Lemma header_loop_total rows : forall fuel start,
  (start <= length rows)%nat -> (length rows < start + fuel)%nat ->
  exists k, header_loop nfc lower rows fuel start = Some k /\ (start <= k)%nat.
Proof.
  induction fuel as [|fuel IH]; intros start Hs Hf; [lia|].
  simpl. destruct (start <? length rows)%nat eqn:Hlt.
  - apply Nat.ltb_lt in Hlt.
    destruct (lookup_lt_is_Some_2 rows start Hlt) as [r Hr].
    destruct (_looks_like_header_row_total rows start r Hr) as [b ->].
    simpl. destruct b.
    + destruct (IH (S start)) as (k & -> & Hk); [lia | lia |]. exists k. split; [reflexivity | lia].
    + exists start. split; [reflexivity | lia].
  - exists start. split; [reflexivity | lia].
Qed.

Lemma header_rows_total rows :
  exists k, header_rows nfc lower rows = Some k.
Proof.
  destruct (header_loop_total rows (S (length rows)) 0) as (k & Hk & _); [lia | lia |].
  exists k. exact Hk.
Qed.

(** The extractor raises exactly when reading the file does. *)
Lemma _csv_surfaces_readable fs p rows :
  fs p = Some rows ->
  exists k, _csv_surfaces nfc lower fs p
            = Some (length rows, collect nfc (drop k rows)).
Proof.
  intros Hp. unfold _csv_surfaces. rewrite Hp. simpl.
  destruct rows as [|r rows]; [exists 0%nat; reflexivity|].
  destruct (header_rows_total (r :: rows)) as [k ->]. exists k. reflexivity.
Qed.

Lemma _csv_surfaces_None fs p :
  _csv_surfaces nfc lower fs p = None <-> fs p = None.
Proof.
  split.
  - destruct (fs p) as [rows|] eqn:Hp; [|reflexivity].
    destruct (_csv_surfaces_readable fs p rows Hp) as [k ->]. discriminate.
  - intros Hp. unfold _csv_surfaces. rewrite Hp. reflexivity.
Qed.

Lemma collect_length rs : (length (collect nfc rs) <= length rs)%nat.
Proof.
  induction rs as [|r rs IH]; simpl; [lia|].
  destruct (truthy _); simpl; lia.
Qed.

(** C10. For every readable spreadsheet [_csv_summary] returns, and its
    three numbers satisfy
    [distinct_surface_count <= surface_count <= raw_row_count]. *)
Theorem csv_summary_counts_ordered fs p rows :
  fs p = Some rows ->
  exists n_lines n_rows n_unique,
    _csv_summary nfc lower fs p = Some (n_lines, n_rows, n_unique)
    /\ n_lines = length rows
    /\ (n_unique <= n_rows)%nat /\ (n_rows <= n_lines)%nat.
Proof.
  intros Hp. destruct (_csv_surfaces_readable fs p rows Hp) as [k Hk].
  unfold _csv_summary. rewrite Hk. simpl.
  eexists _, _, _. split; [reflexivity|]. split; [reflexivity|]. split.
  - apply size_list_to_set_le.
  - etransitivity; [apply collect_length|]. rewrite length_drop. lia.
Qed.

(** *** The union over several files *)

Lemma surface_set_None fs p : surface_set nfc lower fs p = None <-> fs p = None.
Proof.
  rewrite <- _csv_surfaces_None. unfold surface_set.
  destruct (_csv_surfaces nfc lower fs p) as [[n l]|]; simpl; split; congruence.
Qed.

Lemma union_step_surface_set fs acc p :
  union_step nfc lower fs acc p
  = match surface_set nfc lower fs p with Some X => acc ∪ X | None => acc end.
Proof.
  unfold union_step, surface_set.
  destruct (_csv_surfaces nfc lower fs p) as [[n l]|]; reflexivity.
Qed.

Lemma foldl_union_step fs paths : forall acc,
  foldl (union_step nfc lower fs) acc paths
  = acc ∪ ⋃ (omap (surface_set nfc lower fs) paths).
Proof.
  induction paths as [|p paths IH]; intros acc.
  - cbn [foldl omap list_omap].
    rewrite union_list_nil, (right_id_L ∅ (∪)). reflexivity.
  - cbn [foldl omap list_omap]. rewrite IH, union_step_surface_set.
    destruct (surface_set nfc lower fs p) as [X|]; [|reflexivity].
    rewrite union_list_cons, (assoc_L (∪)). reflexivity.
Qed.

Lemma _csv_union_unique_surfaces_spec fs paths :
  _csv_union_unique_surfaces nfc lower fs paths
  = size (⋃ (omap (surface_set nfc lower fs) paths)).
Proof.
  unfold _csv_union_unique_surfaces. rewrite foldl_union_step.
  rewrite (left_id_L ∅ (∪)). reflexivity.
Qed.

Lemma omap_surface_set_readable fs paths :
  omap (surface_set nfc lower fs) (List.filter (fun p => bool_decide (is_Some (fs p))) paths)
  = omap (surface_set nfc lower fs) paths.
Proof.
  induction paths as [|p paths IH]; [reflexivity|].
  cbn [List.filter]. case_bool_decide as Hp; cbn [omap list_omap].
  - rewrite IH. reflexivity.
  - rewrite IH. apply eq_None_not_Some in Hp.
    rewrite (proj2 (surface_set_None fs p) Hp). reflexivity.
Qed.

(** C8. [_csv_union_unique_surfaces] always returns; its result is the
    size of the union of the surface sets of the files that can be read,
    and the files that cannot be read change nothing. *)
Theorem csv_union_skips_unreadable fs paths :
  _csv_union_unique_surfaces nfc lower fs paths
  = size (⋃ (omap (surface_set nfc lower fs) paths))
  /\ _csv_union_unique_surfaces nfc lower fs paths
     = _csv_union_unique_surfaces nfc lower fs
         (List.filter (fun p => bool_decide (is_Some (fs p))) paths)
  /\ (forall p, surface_set nfc lower fs p = None <-> fs p = None).
Proof.
  split; [apply _csv_union_unique_surfaces_spec|]. split.
  - rewrite !_csv_union_unique_surfaces_spec, omap_surface_set_readable. reflexivity.
  - apply surface_set_None.
Qed.

Lemma distinct_surface_count_set fs p d :
  distinct_surface_count nfc lower fs p = Some d ->
  exists X, surface_set nfc lower fs p = Some X /\ d = size X.
Proof.
  unfold distinct_surface_count, _csv_summary, surface_set.
  destruct (_csv_surfaces nfc lower fs p) as [[n l]|]; simpl; [|discriminate].
  intros [= <-]. eauto.
Qed.

(** C4. For a non-empty list of readable files the union count is at
    least the largest per-file distinct count, and equal to it when all
    files have the same set of surfaces. *)
Theorem csv_union_ge_max_distinct fs (files : list path) (ds : list nat) :
  files <> [] ->
  mapM (distinct_surface_count nfc lower fs) files = Some ds ->
  (max_list ds <= _csv_union_unique_surfaces nfc lower fs files)%nat
  /\ ((forall f g, f ∈ files -> g ∈ files ->
        surface_set nfc lower fs f = surface_set nfc lower fs g) ->
      _csv_union_unique_surfaces nfc lower fs files = max_list ds).
Proof.
  intros Hne Hds. apply mapM_Some_1 in Hds.
  assert (Hdne : ds <> []).
  { intros ->. apply Forall2_nil_inv_r in Hds. contradiction. }
  pose proof (max_list_elem_of ds Hdne) as Hmax.
  destruct (proj1 (list_elem_of_lookup _ _) Hmax) as [i Hi].
  destruct (Forall2_lookup_r _ _ _ _ _ Hds Hi) as (f & Hf & Hfd).
  destruct (distinct_surface_count_set fs f _ Hfd) as (X & HX & HdX).
  assert (Hfin : f ∈ files) by (apply list_elem_of_lookup; eauto).
  rewrite _csv_union_unique_surfaces_spec, HdX. split.
  - apply subseteq_size. intros x Hx. apply elem_of_union_list.
    exists X. split; [|exact Hx]. apply list_elem_of_omap. eauto.
  - intros Hsame. f_equal. apply set_eq. intros x. rewrite elem_of_union_list.
    split.
    + intros (Y & HY & Hx). apply list_elem_of_omap in HY as (g & Hg & HgY).
      rewrite <- (Hsame f g Hfin Hg), HX in HgY. congruence.
    + intros Hx. exists X. split; [|exact Hx]. apply list_elem_of_omap. eauto.
Qed.
End ExtractorFacts.

(** *** The extractor depends on the library functions through the cells only *)

Section Agreement.
Variables nfc lower nfc' lower' : ustr -> ustr.

Lemma next_nonempty_agree rs :
  Forall (agree_on nfc lower nfc' lower') rs ->
  next_nonempty nfc rs = next_nonempty nfc' rs.
Proof.
  induction 1 as [|r rs (Hr & _ & _) _ IH]; [reflexivity|].
  simpl. rewrite Hr, IH. reflexivity.
Qed.

Lemma _looks_like_header_row_agree rows idx :
  Forall (agree_on nfc lower nfc' lower') rows ->
  _looks_like_header_row nfc lower rows idx
  = _looks_like_header_row nfc' lower' rows idx.
Proof.
  intros Hrows. unfold _looks_like_header_row, _next_nonempty_first.
  rewrite (next_nonempty_agree (drop (idx + 1) rows)) by (apply Forall_drop, Hrows).
  destruct (rows !! idx) as [r|] eqn:Hr; [|reflexivity]. simpl.
  destruct (proj1 (Forall_lookup _ _) Hrows idx r Hr) as (H1 & H2 & H3).
  rewrite H1, H2, H3. reflexivity.
Qed.

Lemma header_loop_agree rows :
  Forall (agree_on nfc lower nfc' lower') rows ->
  forall fuel start,
    header_loop nfc lower rows fuel start = header_loop nfc' lower' rows fuel start.
Proof.
  intros Hrows. induction fuel as [|fuel IH]; intros start; [reflexivity|].
  simpl. rewrite (_looks_like_header_row_agree rows start Hrows).
  destruct (start <? length rows)%nat; [|reflexivity].
  destruct (_looks_like_header_row nfc' lower' rows start) as [[|]|]; simpl; auto.
Qed.

Lemma header_rows_agree rows :
  Forall (agree_on nfc lower nfc' lower') rows ->
  header_rows nfc lower rows = header_rows nfc' lower' rows.
Proof. intros Hrows. apply header_loop_agree, Hrows. Qed.

Lemma collect_agree rs :
  Forall (agree_on nfc lower nfc' lower') rs -> collect nfc rs = collect nfc' rs.
Proof.
  induction 1 as [|r rs (Hr & _ & _) _ IH]; [reflexivity|].
  simpl. rewrite Hr, IH. reflexivity.
Qed.

Lemma _csv_surfaces_agree fs p rows :
  fs p = Some rows -> Forall (agree_on nfc lower nfc' lower') rows ->
  _csv_surfaces nfc lower fs p = _csv_surfaces nfc' lower' fs p.
Proof.
  intros Hp Hrows. unfold _csv_surfaces. rewrite Hp.
  cbn [mbind option_bind]. destruct rows as [|r rows]; [reflexivity|].
  rewrite (header_rows_agree _ Hrows).
  destruct (header_rows nfc' lower' (r :: rows)) as [k|]; [|reflexivity].
  cbn [mbind option_bind].
  rewrite (collect_agree (drop k (r :: rows))) by (apply Forall_drop, Hrows).
  reflexivity.
Qed.
End Agreement.

(** *** Scenario A *)

Section ScenarioA.
Variable nfc : ustr -> ustr.
Variable lower : ustr -> ustr.
(** NFC keeps a string of ASCII characters, kana letters and unified
    ideographs; [str.lower] keeps a string of caseless and lowercase
    characters. *)
Hypothesis nfc_fix : forall s, forallb nfc_inert_char s = true -> nfc s = s.
Hypothesis lower_fix : forall s, forallb lower_fixed_char s = true -> lower s = s.

Lemma agree_inert (r : row) :
  forallb nfc_inert_char (strip (first_cell r)) = true ->
  forallb nfc_inert_char (strip (join_sp (tail r))) = true ->
  forallb lower_fixed_char (_norm_surface nfc_inert (first_cell r)) = true ->
  agree_on nfc lower nfc_inert lower_ascii r.
Proof.
  intros H1 H2 H3. unfold agree_on, _norm_surface.
  rewrite (nfc_fix _ H1), (nfc_fix _ H2). repeat split.
  change (re_sub_ws (nfc_inert (strip (first_cell r))))
    with (_norm_surface nfc_inert (first_cell r)).
  rewrite (lower_fix _ H3). clear -H3.
  induction (_norm_surface nfc_inert (first_cell r)) as [|c s IH]; [reflexivity|].
  simpl in *. apply andb_prop in H3 as [Hc Hs]. rewrite <- IH by exact Hs.
  f_equal. unfold lower_fixed_char, is_japanese in Hc.
  destruct ((65 <=? c) && (c <=? 90)) eqn:E; [|reflexivity].
  rewrite andb_false_r in Hc. simpl in Hc.
  apply andb_prop in E as [E1 E2]. apply N.leb_le in E1, E2.
  apply orb_prop in Hc as [Hc | Hc]; apply andb_prop in Hc as [Hc _];
    apply N.leb_le in Hc; lia.
Qed.

Lemma scenario_a_surfaces :
  _csv_surfaces nfc lower fs_scenario_a "a.csv" = Some (3%nat, [s_gakkou; s_taberu])
  /\ _csv_surfaces nfc lower fs_scenario_a "b.csv" = Some (2%nat, [s_taberu; s_hashiru]).
Proof.
  split.
  - rewrite (_csv_surfaces_agree nfc lower nfc_inert lower_ascii
               fs_scenario_a "a.csv" rows_a eq_refl);
      [reflexivity|].
    repeat constructor; apply agree_inert; reflexivity.
  - rewrite (_csv_surfaces_agree nfc lower nfc_inert lower_ascii
               fs_scenario_a "b.csv" rows_b eq_refl);
      [reflexivity|].
    repeat constructor; apply agree_inert; reflexivity.
Qed.

(** C2. In scenario A each file has two distinct surfaces (the "word" row
    of a.csv is a header and is skipped) and the two files together have
    three. *)
Theorem scenario_a_counts :
  _csv_summary nfc lower fs_scenario_a "a.csv" = Some (3%nat, 2%nat, 2%nat)
  /\ _csv_summary nfc lower fs_scenario_a "b.csv" = Some (2%nat, 2%nat, 2%nat)
  /\ _csv_union_unique_surfaces nfc lower fs_scenario_a ["a.csv"; "b.csv"]%string
     = 3%nat.
Proof.
  destruct scenario_a_surfaces as [Ha Hb].
  unfold _csv_summary, _csv_union_unique_surfaces. cbn [foldl].
  unfold union_step. rewrite Ha, Hb. repeat split; vm_compute; reflexivity.
Qed.
End ScenarioA.

Lemma nfc_inert_fix s : forallb nfc_inert_char s = true -> nfc_inert s = s.
Proof. reflexivity. Qed.

Lemma lower_ascii_fix s : forallb lower_fixed_char s = true -> lower_ascii s = s.
Proof.
  induction s as [|c s IH]; [reflexivity|]. simpl. intros H.
  apply andb_prop in H as [Hc Hs]. rewrite (IH Hs). f_equal.
  unfold lower_fixed_char, is_japanese in Hc.
  destruct ((65 <=? c) && (c <=? 90)) eqn:E; [|reflexivity].
  rewrite andb_false_r in Hc. simpl in Hc.
  apply andb_prop in E as [E1 E2]. apply N.leb_le in E1, E2.
  apply orb_prop in Hc as [Hc | Hc]; apply andb_prop in Hc as [Hc _];
    apply N.leb_le in Hc; lia.
Qed.

Lemma scenario_a_counts_witness :
  _csv_summary nfc_inert lower_ascii fs_scenario_a "a.csv"
  = Some (3%nat, 2%nat, 2%nat)
  /\ _csv_summary nfc_inert lower_ascii fs_scenario_a "b.csv"
     = Some (2%nat, 2%nat, 2%nat)
  /\ _csv_union_unique_surfaces nfc_inert lower_ascii fs_scenario_a
       ["a.csv"; "b.csv"]%string = 3%nat.
Proof.
  exact (scenario_a_counts nfc_inert lower_ascii nfc_inert_fix lower_ascii_fix).
Defined.

Lemma csv_summary_counts_ordered_witness :
  exists n_lines n_rows n_unique,
    _csv_summary nfc_inert lower_ascii fs_scenario_a "a.csv"
    = Some (n_lines, n_rows, n_unique)
    /\ n_lines = length rows_a
    /\ (n_unique <= n_rows)%nat /\ (n_rows <= n_lines)%nat.
Proof.
  apply (csv_summary_counts_ordered nfc_inert lower_ascii fs_scenario_a "a.csv" rows_a).
  reflexivity.
Defined.

Lemma csv_union_ge_max_distinct_witness :
  (max_list [2; 2]%nat
   <= _csv_union_unique_surfaces nfc_inert lower_ascii fs_scenario_a
        ["a.csv"; "b.csv"]%string)%nat
  /\ _csv_union_unique_surfaces nfc_inert lower_ascii fs_scenario_a
       ["a.csv"; "a.csv"]%string = max_list [2; 2]%nat.
Proof.
  split.
  - apply (csv_union_ge_max_distinct nfc_inert lower_ascii fs_scenario_a
             ["a.csv"; "b.csv"]%string [2; 2]%nat); [discriminate|].
    vm_compute. reflexivity.
  - apply (csv_union_ge_max_distinct nfc_inert lower_ascii fs_scenario_a
             ["a.csv"; "a.csv"]%string [2; 2]%nat); [discriminate | |].
    + vm_compute. reflexivity.
    + intros f g Hf Hg.
      assert (Ef : f = "a.csv"%string).
      { repeat (apply elem_of_cons in Hf as [Hf | Hf]; [exact Hf|]).
        apply elem_of_nil in Hf. contradiction. }
      assert (Eg : g = "a.csv"%string).
      { repeat (apply elem_of_cons in Hg as [Hg | Hg]; [exact Hg|]).
        apply elem_of_nil in Hg. contradiction. }
      rewrite Ef, Eg. reflexivity.
Defined.

(** *** The header rule for a lone Latin label *)

Lemma str_eqb_eq a : forall b, str_eqb a b = true -> a = b.
Proof.
  induction a as [|x a IH]; intros [|y b] H; simpl in H; try discriminate.
  - reflexivity.
  - apply andb_prop in H as [Hx Hab]. apply N.eqb_eq in Hx.
    rewrite Hx, (IH b Hab). reflexivity.
Qed.

Lemma japanese_truthy s : _has_japanese_chars s = true -> truthy s = true.
Proof. destruct s; [discriminate | reflexivity]. Qed.

Lemma header_words_not_japanese s :
  _has_japanese_chars s = true -> str_mem s header_words = false.
Proof.
  intros Hs. destruct (str_mem s header_words) eqn:E; [|reflexivity].
  unfold str_mem in E. apply existsb_exists in E as (w & Hw & Hsw).
  apply str_eqb_eq in Hsw. subst w. exfalso.
  simpl in Hw. repeat (destruct Hw as [<- | Hw]; [discriminate Hs|]). exact Hw.
Qed.

Section HeaderRule.
Variable nfc : ustr -> ustr.
Variable lower : ustr -> ustr.
(** The characters of the logographic and kana ranges have no case:
    [str.lower] keeps them. *)
Hypothesis lower_japanese : forall s,
  _has_japanese_chars s = true -> _has_japanese_chars (lower s) = true.

Lemma collect_japanese rs :
  Forall (japanese_data nfc) rs ->
  collect nfc rs = List.map (fun r => _norm_surface nfc (first_cell r)) rs.
Proof.
  induction 1 as [|r rs Hr _ IH]; [reflexivity|].
  simpl. rewrite (japanese_truthy _ Hr), IH. reflexivity.
Qed.

(** A Latin label directly above a row of data is a header. *)
Lemma latin_label_is_header hdr d rest :
  latin_label nfc hdr -> japanese_data nfc d ->
  _looks_like_header_row nfc lower (hdr :: d :: rest) 0 = Some true.
Proof.
  intros [HL HJ] Hd. unfold _looks_like_header_row, _next_nonempty_first.
  cbn [lookup list_lookup mbind option_bind drop Nat.add next_nonempty].
  unfold japanese_data in Hd.
  rewrite (japanese_truthy _ Hd). cbn iota. rewrite (japanese_truthy _ Hd), Hd, HL, HJ.
  assert (Ht : truthy (_norm_surface nfc (first_cell hdr)) = true).
  { destruct (_norm_surface nfc (first_cell hdr)); [discriminate HL | reflexivity]. }
  rewrite Ht. cbn [negb andb].
  destruct (str_mem _ header_words); [reflexivity|].
  destruct (search_az _ && existsb _ header_keys); [reflexivity|].
  destruct ((1 <? length hdr)%nat && _); reflexivity.
Qed.

(** A row of data that the keyword rule does not catch is no header. *)
Lemma japanese_data_not_header rows idx d :
  rows !! idx = Some d ->
  japanese_data nfc d -> keyword_label nfc lower d = false ->
  _looks_like_header_row nfc lower rows idx = Some false.
Proof.
  intros Hidx Hd Hk. unfold _looks_like_header_row. rewrite Hidx.
  cbn [mbind option_bind]. unfold keyword_label in Hk. unfold japanese_data in Hd.
  rewrite (japanese_truthy _ Hd). cbn [negb].
  rewrite (header_words_not_japanese _ (lower_japanese _ Hd)), Hk, Hd.
  cbn [negb]. rewrite !andb_false_r. cbn [andb]. rewrite ?andb_false_r.
  reflexivity.
Qed.

(** C6, as the code has it.  For a spreadsheet whose first row has a Latin
    letter and no logographic or kana character in its normalised first
    cell, and whose other rows (at least one) have such a character in
    theirs, the first of them not holding a Latin letter together with a
    header keyword once lowercased: the header loop consumes exactly the
    first row, and the normalised first cells of all other rows are the
    surfaces, in row order. *)
Theorem single_latin_header_consumed fs p hdr d rest :
  fs p = Some (hdr :: d :: rest) ->
  latin_label nfc hdr ->
  Forall (japanese_data nfc) (d :: rest) ->
  keyword_label nfc lower d = false ->
  header_rows nfc lower (hdr :: d :: rest) = Some 1%nat
  /\ _csv_surfaces nfc lower fs p
     = Some (length (hdr :: d :: rest),
             List.map (fun r => _norm_surface nfc (first_cell r)) (d :: rest)).
Proof.
  intros Hp Hhdr Hdata Hk.
  assert (Hd : japanese_data nfc d) by (inversion Hdata; assumption).
  assert (Hrows : header_rows nfc lower (hdr :: d :: rest) = Some 1%nat).
  { unfold header_rows. cbn [length header_loop].
    change (0 <? S (S (length rest)))%nat with true. cbn iota.
    rewrite (latin_label_is_header hdr d rest Hhdr Hd). cbn [mbind option_bind].
    change (1 <? S (S (length rest)))%nat with true. cbn iota.
    rewrite (japanese_data_not_header (hdr :: d :: rest) 1 d eq_refl Hd Hk).
    reflexivity. }
  split; [exact Hrows|].
  unfold _csv_surfaces. rewrite Hp. cbn [mbind option_bind].
  rewrite Hrows. cbn [mbind option_bind drop].
  rewrite (collect_japanese _ Hdata). reflexivity.
Qed.
End HeaderRule.

Lemma lower_ascii_japanese s :
  _has_japanese_chars s = true -> _has_japanese_chars (lower_ascii s) = true.
Proof.
  induction s as [|c s IH]; [discriminate|]. simpl. intros H.
  apply orb_prop in H as [Hc | Hs]; [|rewrite (IH Hs); apply orb_true_r].
  destruct ((65 <=? c) && (c <=? 90)) eqn:E; [|rewrite Hc; reflexivity].
  exfalso. unfold is_japanese in Hc.
  apply andb_prop in E as [E1 E2]. apply N.leb_le in E1, E2.
  apply orb_prop in Hc as [Hc | Hc]; apply andb_prop in Hc as [Hc _];
    apply N.leb_le in Hc; lia.
Qed.

Lemma single_latin_header_consumed_witness :
  header_rows nfc_inert lower_ascii [[lit "kanji"]; [s_gakkou]; [s_taberu]]
  = Some 1%nat
  /\ _csv_surfaces nfc_inert lower_ascii
       (fs_single [[lit "kanji"]; [s_gakkou]; [s_taberu]]) "known.csv"
     = Some (3%nat, [s_gakkou; s_taberu]).
Proof.
  apply (single_latin_header_consumed nfc_inert lower_ascii lower_ascii_japanese
           (fs_single [[lit "kanji"]; [s_gakkou]; [s_taberu]]) "known.csv"
           [lit "kanji"] [s_gakkou] [[s_taberu]]).
  - reflexivity.
  - split; reflexivity.
  - repeat constructor.
  - reflexivity.
Defined.

(** C6 as stated fails: "abc", then "word" followed by gakkou, then
    taberu.  The first row is a Latin label and the two others hold
    ideographs, yet the keyword rule makes the second row a header too:
    two rows are consumed and only taberu is a surface. *)
Lemma single_latin_header_counterexample :
  latin_label nfc_inert [lit "abc"]
  /\ Forall (japanese_data nfc_inert) [[lit "word" ++ s_gakkou]; [s_taberu]]
  /\ header_rows nfc_inert lower_ascii rows_keyword_data = Some 2%nat
  /\ _csv_surfaces nfc_inert lower_ascii (fs_single rows_keyword_data) "known.csv"
     = Some (3%nat, [s_taberu]).
Proof.
  split; [split; reflexivity|]. split; [repeat constructor|].
  split; reflexivity.
Qed.

(** ** The configuration loaders *)

Lemma lstrip_allspace s : allspace s = true -> lstrip s = [].
Proof.
  induction s as [|c s IH]; [reflexivity|]. simpl. intros H.
  apply andb_prop in H as [Hc Hs]. rewrite Hc. exact (IH Hs).
Qed.

Lemma strip_allspace s : allspace s = true -> strip s = [].
Proof. intros H. unfold strip. rewrite (lstrip_allspace s H). reflexivity. Qed.

Section LoaderFacts.
Variable py_repr : json -> ustr.
Variable int_of_str : ustr -> option Z.

Lemma _load_anki_profile_default cfg :
  no_profile_name cfg -> _load_anki_profile py_repr cfg = lit "User 1".
Proof.
  intros [| | v Hv | d s Hs Hblank]; try reflexivity.
  - destruct v; try reflexivity. exfalso. exact (Hv kvs eq_refl).
  - simpl. rewrite Hs. simpl. rewrite (strip_allspace s Hblank). reflexivity.
Qed.

Lemma _load_ankimorphs_known_interval_pos cfg :
  (0 < _load_ankimorphs_known_interval int_of_str cfg)%Z.
Proof.
  unfold _load_ankimorphs_known_interval.
  destruct cfg as [| | parsed]; try reflexivity.
  destruct parsed; try reflexivity.
  destruct (dict_get kvs (lit "ankimorphs")); try reflexivity.
  destruct (0 <? _)%Z eqn:E; [apply Z.ltb_lt, E | reflexivity].
Qed.

Lemma _load_ankimorphs_known_interval_no_threshold cfg :
  (forall v, ~ threshold_of cfg v) ->
  _load_ankimorphs_known_interval int_of_str cfg = 21%Z.
Proof.
  intros Hno. unfold _load_ankimorphs_known_interval.
  destruct cfg as [| | parsed]; try reflexivity.
  destruct parsed; try reflexivity.
  destruct (dict_get kvs (lit "ankimorphs")) eqn:E; try reflexivity.
  exfalso. exact (Hno _ (threshold_intro kvs kvs0 E)).
Qed.

Lemma _load_ankimorphs_known_interval_threshold cfg v :
  threshold_of cfg v ->
  _load_ankimorphs_known_interval int_of_str cfg
  = match py_int int_of_str v with
    | Some n => if (0 <? n)%Z then n else 21%Z
    | None => 21%Z
    end.
Proof.
  intros [d a Ha]. unfold _load_ankimorphs_known_interval. rewrite Ha.
  destruct (py_int int_of_str _); reflexivity.
Qed.

(** C1, as the code has it.  The loaders are total.  [_load_anki_profile]
    returns "User 1" when the settings file cannot be read, is not JSON,
    is not a dict, or gives a profile name that is an empty or
    all-whitespace string.  [_load_ankimorphs_known_interval] always
    returns a positive integer: 21 when there is no threshold to read,
    when [int()] rejects the threshold (absent, a list, a dict, a NaN, an
    infinity, a string that is no integer) and when the converted value
    is not positive; the converted value otherwise. *)
Theorem config_loaders_recover cfg :
  (no_profile_name cfg -> _load_anki_profile py_repr cfg = lit "User 1")
  /\ (0 < _load_ankimorphs_known_interval int_of_str cfg)%Z
  /\ ((forall v, ~ threshold_of cfg v) ->
      _load_ankimorphs_known_interval int_of_str cfg = 21%Z)
  /\ (forall v, threshold_of cfg v ->
      (py_int int_of_str v = None ->
       _load_ankimorphs_known_interval int_of_str cfg = 21%Z)
      /\ (forall n, py_int int_of_str v = Some n ->
          ((n <= 0)%Z -> _load_ankimorphs_known_interval int_of_str cfg = 21%Z)
          /\ ((0 < n)%Z -> _load_ankimorphs_known_interval int_of_str cfg = n))).
Proof.
  split; [apply _load_anki_profile_default|].
  split; [apply _load_ankimorphs_known_interval_pos|].
  split; [apply _load_ankimorphs_known_interval_no_threshold|].
  intros v Hv. rewrite (_load_ankimorphs_known_interval_threshold cfg v Hv).
  split; [intros ->; reflexivity|].
  intros n ->. split; intros Hn.
  - destruct (0 <? n)%Z eqn:E; [apply Z.ltb_lt in E; lia | reflexivity].
  - apply Z.ltb_lt in Hn. rewrite Hn. reflexivity.
Qed.
End LoaderFacts.

Lemma config_loaders_recover_witness :
  _load_anki_profile repr_unused cfg_blank_profile = lit "User 1"
  /\ _load_ankimorphs_known_interval int_of_str_unused cfg_blank_profile = 30%Z
  /\ _load_ankimorphs_known_interval int_of_str_unused Unreadable = 21%Z.
Proof.
  destruct (config_loaders_recover repr_unused int_of_str_unused cfg_blank_profile)
    as (Hprofile & _ & _ & Hthreshold).
  destruct (config_loaders_recover repr_unused int_of_str_unused Unreadable)
    as (_ & _ & Hnone & _).
  split; [|split].
  - apply Hprofile. apply (npn_blank _ [32; 32]); reflexivity.
  - apply (Hthreshold (JInt 30)).
    + exact (threshold_intro
               [(lit "anki_profile", JStr [32; 32]);
                (lit "ankimorphs", JDict [(lit "known_interval_days", JInt 30)])]
               [(lit "known_interval_days", JInt 30)] eq_refl).
    + reflexivity.
    + reflexivity.
  - apply Hnone. intros v Hv. inversion Hv.
Defined.

(** C1 as stated fails on [{"ankimorphs": {"known_interval_days": 3.5}}]:
    the threshold is no integer, yet the loader returns 3 and not 21; and
    the profile name is missing, yet the loader returns "None" and not
    "User 1". *)
Lemma config_loaders_counterexample :
  _load_ankimorphs_known_interval int_of_str_unused cfg_fractional = 3%Z
  /\ _load_anki_profile repr_unused cfg_fractional = lit "None".
Proof. split; reflexivity. Qed.

(** ** The external store *)

Lemma filter_length_mono {A} (p q : A -> bool) (l : list A) :
  (forall x, p x = true -> q x = true) ->
  (length (List.filter p l) <= length (List.filter q l))%nat.
Proof.
  intros Hpq. induction l as [|x l IH]; simpl; [lia|].
  destruct (p x) eqn:Hp.
  - rewrite (Hpq x Hp). simpl. lia.
  - destruct (q x); simpl; lia.
Qed.

Lemma count_distinct_filter_mono {R} (col : R -> option ustr) (p q : R -> bool)
  (l : list R) :
  (forall x, p x = true -> q x = true) ->
  (count_distinct col (List.filter p l) <= count_distinct col (List.filter q l))%nat.
Proof.
  intros Hpq. unfold count_distinct. apply subseteq_size.
  intros y. rewrite !elem_of_list_to_set, !list_elem_of_omap.
  intros (x & Hx & Hy). exists x. split; [|exact Hy].
  apply list_elem_of_In, filter_In. apply list_elem_of_In, filter_In in Hx.
  destruct Hx as [Hin Hp]. auto.
Qed.

Lemma interval_ge_mono t1 t2 r :
  (t1 <= t2)%Z -> interval_ge t2 r = true -> interval_ge t1 r = true.
Proof.
  unfold interval_ge. intros Ht.
  destruct (highest_inflection_learning_interval r) as [x|]; [|discriminate].
  intros H. apply Z.leb_le in H. apply Z.leb_le. lia.
Qed.

(** The query runs for every threshold SQLite can bind. *)
Lemma anki_counts_total tbl t :
  sqlite_int t = true -> exists r, anki_counts tbl t = Some r.
Proof.
  intros Ht. unfold anki_counts. rewrite Ht.
  destruct (has_interval_column tbl); eauto.
Qed.

(** C5. Raising the threshold never increases the filtered row count,
    the distinct lemma count or the distinct inflection count of the
    external store. *)
Theorem anki_counts_antitone tbl t1 t2 n1 l1 s1 n2 l2 s2 :
  (t1 <= t2)%Z ->
  anki_counts tbl t1 = Some (n1, l1, s1) ->
  anki_counts tbl t2 = Some (n2, l2, s2) ->
  (n2 <= n1)%nat /\ (l2 <= l1)%nat /\ (s2 <= s1)%nat.
Proof.
  intros Ht. unfold anki_counts.
  destruct (has_interval_column tbl).
  - destruct (sqlite_int t1); [|discriminate].
    destruct (sqlite_int t2); [|discriminate].
    intros [= <- <- <-] [= <- <- <-].
    pose proof (fun r => interval_ge_mono t1 t2 r Ht) as Hmono.
    auto using filter_length_mono, count_distinct_filter_mono.
  - intros [= <- <- <-] [= <- <- <-]. lia.
Qed.

Lemma anki_counts_antitone_witness :
  anki_counts morphs_scenario_b 11 = Some (2%nat, 1%nat, 2%nat)
  /\ anki_counts morphs_scenario_b 21 = Some (2%nat, 1%nat, 2%nat)
  /\ anki_counts morphs_scenario_b 26 = Some (1%nat, 1%nat, 1%nat)
  /\ (1 <= 2)%nat.
Proof.
  split; [vm_compute; reflexivity|].
  split; [vm_compute; reflexivity|].
  split; [vm_compute; reflexivity|].
  apply (anki_counts_antitone morphs_scenario_b 21 26 2 1 2 1 1 1).
  - lia.
  - vm_compute. reflexivity.
  - vm_compute. reflexivity.
Defined.

(** ** The internal store *)

(** C7. In scenario C, two lexemes hashiru and hashitta (with distinct
    ids) joined to the one lemma hashiru, the comparator reports one
    changed row and one collision. *)
Theorem scenario_c_counts (i1 i2 j : Z) :
  i1 <> i2 ->
  tokei_counts (db_scenario_c i1 i2 j)
  = Some (Some 2%nat, Some 1%nat, Some 1%nat, Some 1%nat).
Proof.
  intros Hne.
  assert (H12 : (i1 =? i2)%Z = false) by (apply Z.eqb_neq; exact Hne).
  assert (H21 : (i2 =? i1)%Z = false) by (apply Z.eqb_neq; congruence).
  assert (Hj : joined
                 [ {| lx_id := Some i1; normalized_surface := Some s_hashiru |};
                   {| lx_id := Some i2; normalized_surface := Some s_hashitta |} ]
                 [ {| ll_lexeme_id := Some i1; ll_lemma_id := Some j |};
                   {| ll_lexeme_id := Some i2; ll_lemma_id := Some j |} ]
                 [ {| le_id := Some j; le_lemma := Some s_hashiru |} ]
               = [ (Some s_hashiru, Some s_hashiru);
                   (Some s_hashitta, Some s_hashiru) ]).
  { unfold joined. simpl. rewrite !Z.eqb_refl, H12, H21. simpl.
    rewrite !Z.eqb_refl. reflexivity. }
  unfold tokei_counts, db_scenario_c.
  cbn [lexemes lemmas lexeme_lemmas mbind option_bind].
  rewrite Hj. vm_compute. reflexivity.
Qed.

Lemma scenario_c_counts_witness :
  tokei_counts (db_scenario_c 1 2 1)
  = Some (Some 2%nat, Some 1%nat, Some 1%nat, Some 1%nat).
Proof. apply scenario_c_counts. discriminate. Defined.

(** * Further properties of the code *)

(** ** The normaliser and whitespace *)

Lemma tokens_from_allspace ws : forall cur b,
  allspace ws = true -> ws <> [] ->
  tokens_from cur (ws ++ b)
  = match cur with [] => tokens b | _ :: _ => cur :: tokens b end.
Proof.
  induction ws as [|w ws IH]; intros cur b Hws Hne; [congruence|].
  simpl in Hws. apply andb_prop in Hws as [Hw Hws].
  simpl. rewrite Hw. destruct ws as [|w' ws].
  - destruct cur; reflexivity.
  - rewrite (IH [] b Hws) by discriminate. destruct cur; reflexivity.
Qed.

Lemma tokens_from_allspace_end ws : forall cur,
  allspace ws = true -> tokens_from cur ws = tokens_from cur [].
Proof.
  induction ws as [|w ws IH]; intros cur Hws; [reflexivity|].
  simpl in Hws. apply andb_prop in Hws as [Hw Hws].
  simpl. rewrite Hw, (IH [] Hws). destruct cur; reflexivity.
Qed.

Lemma tokens_from_app_ext a : forall cur r r',
  (forall cur', tokens_from cur' r = tokens_from cur' r') ->
  tokens_from cur (a ++ r) = tokens_from cur (a ++ r').
Proof.
  induction a as [|c a IH]; intros cur r r' Hr; simpl; [apply Hr|].
  destruct (is_space c).
  - rewrite (IH [] r r' Hr). reflexivity.
  - apply IH, Hr.
Qed.

Section NormalizerWhitespace.
Variable nfc : ustr -> ustr.
Hypothesis nfc_around_space : forall a w b,
  is_space w = true ->
  exists w', is_space w' = true /\ nfc (a ++ w :: b) = nfc a ++ w' :: nfc b.
Hypothesis nfc_nospace : forall s, nospace s = true -> nospace (nfc s) = true.
Hypothesis nfc_nil : forall s, nfc s = [] <-> s = [].

(** X1. The normaliser does not see how much whitespace separates two
    parts of a string, nor of which kind it is: any two non-empty runs of
    whitespace between the same parts give the same surface. *)
Theorem norm_surface_whitespace_run a ws ws' b :
  allspace ws = true -> ws <> [] -> allspace ws' = true -> ws' <> [] ->
  _norm_surface nfc (a ++ ws ++ b) = _norm_surface nfc (a ++ ws' ++ b).
Proof.
  intros Hws Hne Hws' Hne'.
  rewrite !(_norm_surface_tokens nfc nfc_around_space nfc_nospace nfc_nil).
  do 2 f_equal. unfold tokens. apply tokens_from_app_ext. intros cur.
  rewrite !tokens_from_allspace by assumption. reflexivity.
Qed.

(** X2. Whitespace around a string does not change its surface. *)
Theorem norm_surface_outer_whitespace ws s ws' :
  allspace ws = true -> allspace ws' = true ->
  _norm_surface nfc (ws ++ s ++ ws') = _norm_surface nfc s.
Proof.
  intros Hws Hws'.
  rewrite !(_norm_surface_tokens nfc nfc_around_space nfc_nospace nfc_nil).
  do 2 f_equal. unfold tokens.
  transitivity (tokens_from [] (s ++ ws')).
  - destruct ws as [|w ws]; [reflexivity|].
    rewrite tokens_from_allspace by (assumption || discriminate). reflexivity.
  - rewrite <- (app_nil_r s) at 2. apply tokens_from_app_ext. intros cur.
    apply tokens_from_allspace_end, Hws'.
Qed.

(** X3. The only whitespace character a surface holds is U+0020. *)
Theorem norm_surface_space_is_ascii s c :
  c ∈ _norm_surface nfc s -> is_space c = true -> c = 32.
Proof.
  rewrite (_norm_surface_tokens nfc nfc_around_space nfc_nospace nfc_nil).
  generalize (nfc_tokens_blocks nfc nfc_nospace nfc_nil s).
  generalize (List.map nfc (tokens s)). intros ts Hts.
  induction Hts as [|t ts [_ Ht] Hts IH]; intros Hc Hsp.
  - apply elem_of_nil in Hc. contradiction.
  - assert (Hnot : c ∈ t -> False).
    { intros Hin. unfold nospace in Ht.
      rewrite forallb_forall in Ht. apply list_elem_of_In in Hin.
      specialize (Ht c Hin). rewrite Hsp in Ht. discriminate. }
    destruct ts as [|t' ts]; [simpl in Hc; contradiction|].
    rewrite join_sp_cons in Hc by discriminate.
    apply elem_of_app in Hc as [Hc | Hc]; [contradiction|].
    apply elem_of_cons in Hc as [Hc | Hc]; [exact Hc | auto].
Qed.
End NormalizerWhitespace.

(** A tab and a line feed against one space; spaces around. *)
Lemma norm_surface_whitespace_run_witness :
  _norm_surface nfc_inert ([97] ++ [9; 10] ++ [98])
  = _norm_surface nfc_inert ([97] ++ [32] ++ [98]).
Proof.
  apply (norm_surface_whitespace_run nfc_inert nfc_inert_around_space
           nfc_inert_nospace nfc_inert_nil); (reflexivity || discriminate).
Defined.

Lemma norm_surface_outer_whitespace_witness :
  _norm_surface nfc_inert ([32; 0x3000] ++ [97; 32; 98] ++ [10])
  = _norm_surface nfc_inert [97; 32; 98].
Proof.
  apply (norm_surface_outer_whitespace nfc_inert nfc_inert_around_space
           nfc_inert_nospace nfc_inert_nil); reflexivity.
Defined.

Lemma norm_surface_space_is_ascii_witness :
  32 ∈ _norm_surface nfc_inert [97; 0x3000; 9; 98]
  /\ is_space 32 = true /\ 32 = 32.
Proof.
  assert (Hin : 32 ∈ _norm_surface nfc_inert [97; 0x3000; 9; 98]).
  { vm_compute. apply elem_of_cons. right. apply elem_of_cons. left. reflexivity. }
  split; [exact Hin|]. split; [reflexivity|].
  exact (norm_surface_space_is_ascii nfc_inert nfc_inert_around_space
           nfc_inert_nospace nfc_inert_nil [97; 0x3000; 9; 98] 32 Hin eq_refl).
Defined.

(** ** The extractor: what the surfaces are *)

Section ExtractorInvariants.
Variable nfc : ustr -> ustr.
Variable lower : ustr -> ustr.

Lemma collect_sublist rs :
  collect nfc rs `sublist_of`
    List.map (fun r => _norm_surface nfc (first_cell r)) rs.
Proof.
  induction rs as [|r rs IH]; simpl; [constructor|].
  destruct (truthy _); [apply sublist_skip | apply sublist_cons]; exact IH.
Qed.

Lemma collect_nonempty rs : Forall (fun s => s <> []) (collect nfc rs).
Proof.
  induction rs as [|r rs IH]; simpl; [constructor|].
  destruct (_norm_surface nfc (first_cell r)) eqn:E; simpl; [exact IH|].
  constructor; [discriminate | exact IH].
Qed.

(** X4. Whatever the file, the extractor reports the number of raw rows,
    and its surfaces are normalised first cells of the rows, in row order,
    none of them empty. *)
Theorem csv_surfaces_are_cells fs p n surfaces :
  _csv_surfaces nfc lower fs p = Some (n, surfaces) ->
  exists rows,
    fs p = Some rows /\ n = length rows
    /\ surfaces `sublist_of`
         List.map (fun r => _norm_surface nfc (first_cell r)) rows
    /\ Forall (fun s => s <> []) surfaces.
Proof.
  intros H. destruct (fs p) as [rows|] eqn:Hp.
  - destruct (_csv_surfaces_readable nfc lower fs p rows Hp) as [k Hk].
    rewrite Hk in H. injection H as <- <-. exists rows.
    split; [reflexivity|]. split; [reflexivity|]. split.
    + etransitivity; [apply collect_sublist|].
      change (List.map ?f ?l) with (f <$> l). rewrite fmap_drop. apply sublist_drop.
    + apply collect_nonempty.
  - apply (proj2 (_csv_surfaces_None nfc lower fs p)) in Hp. congruence.
Qed.

(** The header loop: what it returns. *)
Lemma header_loop_post rows : forall fuel start k,
  header_loop nfc lower rows fuel start = Some k ->
  (start <= k)%nat
  /\ (forall i, (start <= i < k)%nat ->
        _looks_like_header_row nfc lower rows i = Some true)
  /\ ((k < length rows)%nat ->
        _looks_like_header_row nfc lower rows k = Some false)
  /\ ((start <= length rows)%nat -> (k <= length rows)%nat).
Proof.
  induction fuel as [|fuel IH]; intros start k H; [discriminate|].
  simpl in H. destruct (start <? length rows)%nat eqn:Hlt.
  - apply Nat.ltb_lt in Hlt.
    destruct (_looks_like_header_row nfc lower rows start) as [[|]|] eqn:Hrow;
      simpl in H; [| |discriminate].
    + destruct (IH _ _ H) as (Hle & Hall & Hstop & Hlen).
      split; [lia|]. split; [|split; [exact Hstop | intros _; apply Hlen; lia]].
      intros i Hi. destruct (decide (i = start)) as [->|Hne]; [exact Hrow|].
      apply Hall. lia.
    + injection H as <-. split; [lia|]. split; [intros i Hi; lia|].
      split; [intros _; exact Hrow | intros _; lia].
  - apply Nat.ltb_ge in Hlt. injection H as <-.
    split; [lia|]. split; [intros i Hi; lia|]. split; intros; lia.
Qed.

(** X5. Header scanning returns.  The rows it consumes are the leading
    rows the classifier calls headers, and it stops at the first row the
    classifier calls data (or at the end of the file): no later row is
    looked at as a header. *)
Theorem header_rows_prefix rows :
  exists k,
    header_rows nfc lower rows = Some k
    /\ (k <= length rows)%nat
    /\ (forall i, (i < k)%nat ->
          _looks_like_header_row nfc lower rows i = Some true)
    /\ ((k < length rows)%nat ->
          _looks_like_header_row nfc lower rows k = Some false).
Proof.
  destruct (header_rows_total nfc lower rows) as [k Hk]. exists k.
  destruct (header_loop_post rows _ _ _ Hk) as (_ & Hall & Hstop & Hlen).
  split; [exact Hk|]. split; [apply Hlen; lia|].
  split; [intros i Hi; apply Hall; lia | exact Hstop].
Qed.

Lemma header_rows_data_first r rest :
  _looks_like_header_row nfc lower (r :: rest) 0 = Some false ->
  header_rows nfc lower (r :: rest) = Some 0%nat.
Proof.
  intros H. unfold header_rows. cbn [length header_loop].
  change (0 <? S (length rest))%nat with true. cbn iota. rewrite H. reflexivity.
Qed.

(** X6. A first row whose first cell is blank is no header and ends the
    header scan at once: nothing is skipped, and every non-blank first
    cell below it is a surface, a header label included. *)
Theorem blank_first_row_keeps_all fs p r rest :
  fs p = Some (r :: rest) ->
  _norm_surface nfc (first_cell r) = [] ->
  header_rows nfc lower (r :: rest) = Some 0%nat
  /\ _csv_surfaces nfc lower fs p = Some (S (length rest), collect nfc rest).
Proof.
  intros Hp Hblank.
  assert (Hrows : header_rows nfc lower (r :: rest) = Some 0%nat).
  { apply header_rows_data_first. unfold _looks_like_header_row.
    cbn [lookup list_lookup mbind option_bind]. rewrite Hblank. reflexivity. }
  split; [exact Hrows|].
  unfold _csv_surfaces. rewrite Hp. cbn [mbind option_bind]. rewrite Hrows.
  cbn [mbind option_bind drop collect length]. rewrite Hblank. reflexivity.
Qed.

(** X8. A file made only of header labels (every row has a non-empty first
    cell whose lowercase is one of the header words) has all its rows
    consumed as headers and no surface. *)
Theorem header_words_only_no_surface fs p rows :
  fs p = Some rows ->
  Forall (fun r => _norm_surface nfc (first_cell r) <> []
                   /\ str_mem (lower (_norm_surface nfc (first_cell r)))
                        header_words = true) rows ->
  _csv_surfaces nfc lower fs p = Some (length rows, []).
Proof.
  intros Hp Hall.
  assert (Hrow : forall i r, rows !! i = Some r ->
            _looks_like_header_row nfc lower rows i = Some true).
  { intros i r Hi. unfold _looks_like_header_row. rewrite Hi.
    cbn [mbind option_bind].
    destruct (proj1 (Forall_lookup _ _) Hall i r Hi) as [Hne Hw].
    destruct (_norm_surface nfc (first_cell r)) eqn:E; [congruence|].
    cbn [truthy negb]. rewrite Hw. reflexivity. }
  assert (Hloop : forall fuel start,
            (start <= length rows)%nat -> (length rows < start + fuel)%nat ->
            header_loop nfc lower rows fuel start = Some (length rows)).
  { induction fuel as [|fuel IH]; intros start Hs Hf; [lia|].
    simpl. destruct (start <? length rows)%nat eqn:Hlt.
    - apply Nat.ltb_lt in Hlt.
      destruct (lookup_lt_is_Some_2 rows start Hlt) as [r Hr].
      rewrite (Hrow start r Hr). simpl. apply IH; lia.
    - apply Nat.ltb_ge in Hlt. f_equal. lia. }
  unfold _csv_surfaces. rewrite Hp. cbn [mbind option_bind].
  destruct rows as [|r rows]; [reflexivity|].
  unfold header_rows. rewrite Hloop by lia. cbn [mbind option_bind].
  rewrite drop_all. reflexivity.
Qed.

(** *** The union *)

(** X9. For one readable file the union count is the file's distinct
    count; for an unreadable one it is 0. *)
Theorem csv_union_single fs p :
  match distinct_surface_count nfc lower fs p with
  | Some d => _csv_union_unique_surfaces nfc lower fs [p] = d
  | None => fs p = None /\ _csv_union_unique_surfaces nfc lower fs [p] = 0%nat
  end.
Proof.
  unfold _csv_union_unique_surfaces, distinct_surface_count, _csv_summary.
  cbn [foldl]. unfold union_step.
  destruct (_csv_surfaces nfc lower fs p) as [[n l]|] eqn:E; cbn [mbind option_bind].
  - rewrite (left_id_L ∅ (∪)). reflexivity.
  - split; [apply _csv_surfaces_None in E; exact E | apply size_empty].
Qed.

(** X10. The union count depends on which files are given, not on their
    order nor on how often one is given. *)
Theorem csv_union_same_files fs (paths paths' : list path) :
  (forall p, p ∈ paths <-> p ∈ paths') ->
  _csv_union_unique_surfaces nfc lower fs paths
  = _csv_union_unique_surfaces nfc lower fs paths'.
Proof.
  intros Hsame. rewrite !_csv_union_unique_surfaces_spec. f_equal.
  apply set_eq. intros x. rewrite !elem_of_union_list.
  split; intros (X & HX & Hx); exists X; (split; [|exact Hx]);
    apply list_elem_of_omap in HX as (q & Hq & HqX);
    apply list_elem_of_omap; exists q; (split; [|exact HqX]); apply Hsame, Hq.
Qed.

(** X11. Giving more files never lowers the union count, and the count of
    two lists together is at most the sum of their counts. *)
Theorem csv_union_app_bounds fs (paths more : list path) :
  (_csv_union_unique_surfaces nfc lower fs paths
   <= _csv_union_unique_surfaces nfc lower fs (paths ++ more))%nat
  /\ (_csv_union_unique_surfaces nfc lower fs more
      <= _csv_union_unique_surfaces nfc lower fs (paths ++ more))%nat
  /\ (_csv_union_unique_surfaces nfc lower fs (paths ++ more)
      <= _csv_union_unique_surfaces nfc lower fs paths
         + _csv_union_unique_surfaces nfc lower fs more)%nat.
Proof.
  rewrite !_csv_union_unique_surfaces_spec, omap_app, union_list_app_L.
  split; [apply subseteq_size, union_subseteq_l|].
  split; [apply subseteq_size, union_subseteq_r|].
  rewrite size_union_alt.
  assert (H : (size (⋃ omap (surface_set nfc lower fs) more
                     ∖ ⋃ omap (surface_set nfc lower fs) paths)
               <= size (⋃ omap (surface_set nfc lower fs) more))%nat)
    by (apply subseteq_size, subseteq_difference_l; reflexivity).
  lia.
Qed.
End ExtractorInvariants.

Section ExtractorFixedPoints.
Variable nfc : ustr -> ustr.
Variable lower : ustr -> ustr.
Hypothesis nfc_around_space : forall a w b,
  is_space w = true ->
  exists w', is_space w' = true /\ nfc (a ++ w :: b) = nfc a ++ w' :: nfc b.
Hypothesis nfc_nospace : forall s, nospace s = true -> nospace (nfc s) = true.
Hypothesis nfc_nil : forall s, nfc s = [] <-> s = [].
Hypothesis nfc_idem : forall s, nfc (nfc s) = nfc s.
(** The characters of the logographic and kana ranges have no case. *)
Hypothesis lower_japanese : forall s,
  _has_japanese_chars s = true -> _has_japanese_chars (lower s) = true.

Lemma _norm_surface_cell_normal s :
  _norm_surface nfc (_norm_surface nfc s) = _norm_surface nfc s.
Proof.
  rewrite !(_norm_surface_tokens nfc nfc_around_space nfc_nospace nfc_nil).
  rewrite (tokens_join_sp _ (nfc_tokens_blocks nfc nfc_nospace nfc_nil s)).
  f_equal. rewrite List.map_map. apply List.map_ext. intros t. apply nfc_idem.
Qed.

(** X12. Every surface the extractor returns is in normal form:
    normalising it again gives it back. *)
Theorem csv_surfaces_normal fs p n surfaces :
  _csv_surfaces nfc lower fs p = Some (n, surfaces) ->
  Forall (fun s => _norm_surface nfc s = s) surfaces.
Proof.
  intros H. destruct (csv_surfaces_are_cells nfc lower fs p n surfaces H)
    as (rows & _ & _ & Hsub & _).
  apply Forall_forall. intros s Hs.
  assert (Hin : s ∈ List.map (fun r => _norm_surface nfc (first_cell r)) rows).
  { eapply elem_of_sublist; eassumption. }
  apply list_elem_of_In, in_map_iff in Hin as (r & <- & _).
  apply _norm_surface_cell_normal.
Qed.

(** X7. A first row of data (a logographic or kana character in its
    normalised first cell, and no Latin letter next to a header keyword
    once lowercased) is no header: nothing is skipped and the row gives
    the first surface. *)
Theorem japanese_first_row_no_header fs p r rest :
  fs p = Some (r :: rest) ->
  japanese_data nfc r -> keyword_label nfc lower r = false ->
  header_rows nfc lower (r :: rest) = Some 0%nat
  /\ _csv_surfaces nfc lower fs p
     = Some (S (length rest),
             _norm_surface nfc (first_cell r) :: collect nfc rest).
Proof.
  intros Hp Hr Hk.
  assert (Hrows : header_rows nfc lower (r :: rest) = Some 0%nat).
  { apply header_rows_data_first.
    apply (japanese_data_not_header nfc lower lower_japanese (r :: rest) 0 r);
      [reflexivity | exact Hr | exact Hk]. }
  split; [exact Hrows|].
  unfold _csv_surfaces. rewrite Hp. cbn [mbind option_bind]. rewrite Hrows.
  cbn [mbind option_bind drop collect length].
  rewrite (japanese_truthy _ Hr). reflexivity.
Qed.
End ExtractorFixedPoints.

Lemma csv_surfaces_are_cells_witness :
  exists rows,
    fs_scenario_a "a.csv" = Some rows /\ 3%nat = length rows
    /\ [s_gakkou; s_taberu] `sublist_of`
         List.map (fun r => _norm_surface nfc_inert (first_cell r)) rows
    /\ Forall (fun s => s <> []) [s_gakkou; s_taberu].
Proof.
  apply (csv_surfaces_are_cells nfc_inert lower_ascii fs_scenario_a "a.csv").
  reflexivity.
Defined.

(** The label "word" under a blank first row comes out as a surface. *)
Lemma blank_first_row_keeps_all_witness :
  header_rows nfc_inert lower_ascii rows_blank_first = Some 0%nat
  /\ _csv_surfaces nfc_inert lower_ascii (fs_single rows_blank_first) "known.csv"
     = Some (3%nat, [lit "word"; s_gakkou]).
Proof.
  apply (blank_first_row_keeps_all nfc_inert lower_ascii
           (fs_single rows_blank_first) "known.csv" [lit " "]
           [[lit "word"]; [s_gakkou]]); reflexivity.
Defined.

Lemma japanese_first_row_no_header_witness :
  header_rows nfc_inert lower_ascii rows_b = Some 0%nat
  /\ _csv_surfaces nfc_inert lower_ascii fs_scenario_a "b.csv"
     = Some (2%nat, [s_taberu; s_hashiru]).
Proof.
  apply (japanese_first_row_no_header nfc_inert lower_ascii lower_ascii_japanese
           fs_scenario_a "b.csv" [s_taberu] [[s_hashiru]]); reflexivity.
Defined.

Lemma header_words_only_no_surface_witness :
  _csv_surfaces nfc_inert lower_ascii (fs_single rows_labels_only) "known.csv"
  = Some (2%nat, []).
Proof.
  apply (header_words_only_no_surface nfc_inert lower_ascii
           (fs_single rows_labels_only) "known.csv" rows_labels_only).
  - reflexivity.
  - repeat constructor; discriminate.
Defined.

Lemma csv_union_same_files_witness :
  _csv_union_unique_surfaces nfc_inert lower_ascii fs_scenario_a
    ["a.csv"; "b.csv"]%string
  = _csv_union_unique_surfaces nfc_inert lower_ascii fs_scenario_a
      ["b.csv"; "a.csv"; "b.csv"]%string.
Proof.
  apply csv_union_same_files. intros p.
  rewrite !elem_of_cons, !elem_of_nil. tauto.
Defined.

Lemma csv_surfaces_normal_witness :
  Forall (fun s => _norm_surface nfc_inert s = s) [s_gakkou; s_taberu].
Proof.
  apply (csv_surfaces_normal nfc_inert lower_ascii nfc_inert_around_space
           nfc_inert_nospace nfc_inert_nil nfc_inert_idem
           fs_scenario_a "a.csv" 3%nat).
  reflexivity.
Defined.

(** ** The profile name *)

(** X13. Whatever the settings file holds, the profile name the loader
    returns is not empty and has no whitespace at either end. *)
Theorem anki_profile_usable py_repr cfg :
  _load_anki_profile py_repr cfg <> []
  /\ head_ok (_load_anki_profile py_repr cfg) = true
  /\ last_ok (_load_anki_profile py_repr cfg) = true.
Proof.
  assert (Hdefault : lit "User 1" <> []
                     /\ head_ok (lit "User 1") = true
                     /\ last_ok (lit "User 1") = true)
    by (repeat split; discriminate).
  unfold _load_anki_profile.
  destruct cfg as [| | parsed]; try exact Hdefault.
  destruct parsed; try exact Hdefault.
  destruct (strip_trimmed (py_str py_repr (dict_get kvs (lit "anki_profile"))))
    as [Hh Hl].
  destruct (strip _) eqn:E; [exact Hdefault|].
  cbn [truthy]. repeat split; [discriminate | exact Hh | exact Hl].
Qed.

(** ** The external store: bounds and the two query plans *)

Lemma length_omap_le {A B} (f : A -> option B) (l : list A) :
  (length (omap f l) <= length l)%nat.
Proof.
  induction l as [|x l IH]; [reflexivity|]. cbn [omap list_omap].
  destruct (f x); simpl; lia.
Qed.

Lemma count_distinct_le {R} (col : R -> option ustr) (rows : list R) :
  (count_distinct col rows <= length rows)%nat.
Proof.
  unfold count_distinct.
  etransitivity; [apply size_list_to_set_le | apply length_omap_le].
Qed.

(** X14. Whichever query plan runs, the distinct lemma count and the
    distinct inflection count never exceed the row count. *)
Theorem anki_counts_bounded tbl t n l s :
  anki_counts tbl t = Some (n, l, s) -> (l <= n)%nat /\ (s <= n)%nat.
Proof.
  unfold anki_counts. destruct (has_interval_column tbl).
  - destruct (sqlite_int t); [|discriminate].
    intros [= <- <- <-]. split; apply count_distinct_le.
  - intros [= <- <- <-]. split; apply count_distinct_le.
Qed.

Lemma anki_counts_bounded_witness : (1 <= 2)%nat /\ (2 <= 2)%nat.
Proof.
  apply (anki_counts_bounded morphs_scenario_b 21 2 1 2). vm_compute. reflexivity.
Defined.


Lemma filter_interval_ge_not_null t rows :
  List.filter (interval_ge t)
    (List.filter (fun r => bool_decide
                    (is_Some (highest_inflection_learning_interval r))) rows)
  = List.filter (interval_ge t) rows.
Proof.
  induction rows as [|r rows IH]; [reflexivity|]. simpl.
  case_bool_decide as Hr; simpl.
  - rewrite IH. reflexivity.
  - rewrite IH. unfold interval_ge at 2.
    destruct (highest_inflection_learning_interval r); [|reflexivity].
    exfalso. apply Hr. eauto.
Qed.



(** X16. With the interval column, rows whose interval is NULL are never
    counted, whatever the threshold: dropping them from the table changes
    no count. *)
Theorem anki_counts_null_interval rows t :
  anki_counts {| has_interval_column := true; morph_rows := rows |} t
  = anki_counts
      {| has_interval_column := true;
         morph_rows :=
           List.filter (fun r => bool_decide
                          (is_Some (highest_inflection_learning_interval r)))
             rows |} t.
Proof.
  unfold anki_counts. cbn [has_interval_column morph_rows].
  rewrite filter_interval_ge_not_null. reflexivity.
Qed.

(** ** The internal store *)

Lemma joined_rows ls lls les s l :
  In (s, l) (joined ls lls les) ->
  exists lx le, In lx ls /\ In le les
                /\ s = normalized_surface lx /\ l = le_lemma le.
Proof.
  unfold joined. intros H.
  apply in_flat_map in H as (lx & Hlx & H).
  apply in_flat_map in H as (ll & _ & H).
  apply in_map_iff in H as (le & [= <- <-] & Hle).
  apply filter_In in Hle as [Hle _]. eauto 8.
Qed.

Lemma filter_none {A} (f : A -> bool) (l : list A) :
  (forall x, In x l -> f x = false) -> List.filter f l = [].
Proof.
  induction l as [|x l IH]; intros H; [reflexivity|]. simpl.
  rewrite (H x (or_introl eq_refl)). apply IH. intros y Hy. apply H. right. exact Hy.
Qed.

Lemma filter_nil_all {A} (f : A -> bool) (l : list A) :
  List.filter f l = [] -> forall x, In x l -> f x = false.
Proof.
  induction l as [|y l IH]; intros H x Hx; [contradiction|]. simpl in H.
  destruct (f y) eqn:Hy; [discriminate|].
  destruct Hx as [<- | Hx]; [exact Hy | exact (IH H x Hx)].
Qed.

Lemma str_eqb_refl a : str_eqb a a = true.
Proof. induction a as [|x a IH]; [reflexivity|]. simpl. rewrite N.eqb_refl. exact IH. Qed.


Section InternalStore.
Variables (ls : list lexeme) (lls : list lexeme_lemma) (les : list lemma_row).
(** No lemma row has a NULL text. *)
Hypothesis lemma_not_null : Forall (fun le => le_lemma le <> None) les.

Lemma joined_lemma_not_null s l :
  In (s, l) (joined ls lls les) -> exists t, l = Some t /\ In (Some t) (List.map le_lemma les).
Proof.
  intros H. apply joined_rows in H as (lx & le & _ & Hle & _ & ->).
  rewrite Forall_forall in lemma_not_null.
  destruct (le_lemma le) as [t|] eqn:E.
  - exists t. split; [reflexivity|]. rewrite <- E. apply in_map, Hle.
  - exfalso. apply (lemma_not_null le); [apply list_elem_of_In, Hle | exact E].
Qed.

(** X18. When no joined row has a surface that differs from its lemma,
    no lemma is a collision. *)
Theorem no_change_no_collision :
  changed_count (joined ls lls les) = 0%nat ->
  collision_count (joined ls lls les) = 0%nat.
Proof.
  intros Hch. unfold changed_count in Hch.
  apply length_zero_iff_nil in Hch.
  pose proof (filter_nil_all _ _ Hch) as Hsame.
  unfold collision_count. rewrite filter_none; [reflexivity|].
  intros g Hg. apply (proj2 (list_elem_of_In _ _)) in Hg.
  apply (proj1 (elem_of_remove_dups _ _)) in Hg.
  apply (proj1 (list_elem_of_In _ _)) in Hg.
  apply in_map_iff in Hg as ([s l] & <- & Hin). cbn [snd].
  destruct (joined_lemma_not_null s l Hin) as (t & -> & _).
  apply Nat.ltb_ge. unfold count_distinct.
  transitivity (size ({[ t ]} : gset ustr)); [|rewrite size_singleton; lia].
  apply subseteq_size. intros x Hx. apply elem_of_singleton.
  apply elem_of_list_to_set, list_elem_of_omap in Hx as ([s' l'] & Hr & Hs').
  cbn [fst] in Hs'. subst s'.
  apply list_elem_of_In, filter_In in Hr as [Hr Hl'].
  apply bool_decide_eq_true in Hl'. cbn [snd] in Hl'. subst l'.
  specialize (Hsame _ Hr). unfold surface_ne_lemma in Hsame. cbn in Hsame.
  apply negb_false_iff, str_eqb_eq in Hsame. exact Hsame.
Qed.

(** X19. The number of collisions is at most the number of distinct
    lemmas, and the number of changed rows at most the number of joined
    rows. *)
Theorem collision_changed_bounded :
  (collision_count (joined ls lls les) <= count_distinct le_lemma les)%nat
  /\ (changed_count (joined ls lls les) <= length (joined ls lls les))%nat.
Proof.
  split; [|unfold changed_count; apply List.filter_length_le].
  unfold collision_count.
  etransitivity; [apply List.filter_length_le|].
  set (groups := remove_dups (List.map snd (joined ls lls les))).
  assert (Hg : forall g, g ∈ groups ->
                 exists t, g = Some t /\ Some t ∈ List.map le_lemma les).
  { intros g Hin. apply (proj1 (elem_of_remove_dups _ _)) in Hin.
    apply (proj1 (list_elem_of_In _ _)) in Hin.
    apply in_map_iff in Hin as ([s l] & <- & Hin).
    destruct (joined_lemma_not_null s l Hin) as (t & -> & Ht).
    exists t. split; [reflexivity | apply list_elem_of_In, Ht]. }
  assert (Hnd : NoDup groups) by apply NoDup_remove_dups.
  clearbody groups.
  assert (Hgroups : groups = Some <$> omap id groups).
  { clear Hnd. induction groups as [|g groups IH]; [reflexivity|].
    destruct (Hg g) as (t & -> & _); [left|].
    cbn [omap list_omap id fmap list_fmap]. f_equal. apply IH.
    intros g' Hg'. apply Hg. right. exact Hg'. }
  rewrite Hgroups, length_fmap.
  assert (Hnd' : NoDup (omap id groups)).
  { rewrite Hgroups in Hnd. apply (NoDup_fmap_1 Some) in Hnd. exact Hnd. }
  rewrite <- (size_list_to_set (C:=gset ustr) _ Hnd').
  unfold count_distinct. apply subseteq_size. intros t Ht.
  apply elem_of_list_to_set in Ht. apply elem_of_list_to_set.
  assert (Hin : Some t ∈ groups).
  { rewrite Hgroups. apply list_elem_of_fmap. eauto. }
  destruct (Hg _ Hin) as (t' & [= <-] & Hle).
  apply list_elem_of_In, in_map_iff in Hle as (le & Hle & Hin').
  apply list_elem_of_omap. exists le. split; [apply list_elem_of_In, Hin' | exact Hle].
Qed.
End InternalStore.

Lemma no_change_no_collision_witness :
  collision_count
    (joined [ {| lx_id := Some 1%Z; normalized_surface := Some s_hashiru |} ]
            [ {| ll_lexeme_id := Some 1%Z; ll_lemma_id := Some 7%Z |} ]
            [ {| le_id := Some 7%Z; le_lemma := Some s_hashiru |} ]) = 0%nat.
Proof.
  apply no_change_no_collision; [|reflexivity].
  repeat constructor; discriminate.
Defined.

Lemma collision_changed_bounded_witness :
  (1 <= 1)%nat /\ (1 <= 2)%nat.
Proof.
  apply (collision_changed_bounded
           [ {| lx_id := Some 1%Z; normalized_surface := Some s_hashiru |};
             {| lx_id := Some 2%Z; normalized_surface := Some s_hashitta |} ]
           [ {| ll_lexeme_id := Some 1%Z; ll_lemma_id := Some 1%Z |};
             {| ll_lexeme_id := Some 2%Z; ll_lemma_id := Some 1%Z |} ]
           [ {| le_id := Some 1%Z; le_lemma := Some s_hashiru |} ]).
  repeat constructor; discriminate.
Defined.

(** With a NULL lemma text the two lexemes of scenario C collide although
    no row counts as changed: the hypothesis above is needed. *)
Lemma null_lemma_collides :
  tokei_counts db_null_lemma
  = Some (Some 2%nat, Some 0%nat, Some 0%nat, Some 1%nat).
Proof. vm_compute. reflexivity. Qed.

(** ** Printing durations *)

Lemma uint_codes_digits d : Forall is_digit (uint_codes d).
Proof. induction d; simpl; constructor; (exact IHd || unfold is_digit; lia). Qed.

Lemma codes_uint_uint_codes d : codes_uint (uint_codes d) = Some d.
Proof. induction d; simpl; [reflexivity | rewrite IHd; reflexivity ..]. Qed.

Lemma uint_codes_nil d : uint_codes d = [] -> d = Decimal.Nil.
Proof. destruct d; simpl; (reflexivity || discriminate). Qed.

Lemma dec_nonempty k : dec k <> [].
Proof.
  unfold dec. intros E. apply uint_codes_nil in E.
  destruct k as [|p]; [discriminate|]. simpl in E.
  exact (Unsigned.to_uint_nonnil p E).
Qed.

Lemma undec_dec k : undec (dec k) = Some (Z.of_N k).
Proof.
  unfold undec, dec. rewrite codes_uint_uint_codes. simpl.
  rewrite DecimalN.Unsigned.of_to. reflexivity.
Qed.

Lemma undec_zero_dec k : undec (48 :: dec k) = Some (Z.of_N k).
Proof.
  unfold undec, dec. simpl. rewrite codes_uint_uint_codes. simpl.
  rewrite DecimalN.Unsigned.of_to. reflexivity.
Qed.

Lemma cut_colon_digits a b :
  Forall is_digit a -> cut_colon (a ++ 58 :: b) = (a, b).
Proof.
  induction 1 as [|c a Hc _ IH]; [reflexivity|]. simpl.
  destruct (N.eqb_spec c 58) as [->|_]; [unfold is_digit in Hc; lia|].
  rewrite IH. reflexivity.
Qed.

Lemma pow_limit_large : (60 <= 10 ^ int_max_str_digits)%Z.
Proof. apply Z.leb_le. vm_compute. reflexivity. Qed.

Lemma str_int_nonneg v t :
  (0 <= v)%Z -> str_int v = Some t -> t = dec (Z.to_N v).
Proof.
  intros Hv. unfold str_int. destruct (_ <=? _)%Z; [discriminate|].
  rewrite (proj2 (Z.ltb_ge v 0) Hv), Z.abs_eq by exact Hv. intros [= <-]. reflexivity.
Qed.

Lemma str_int_small v :
  (0 <= v < 60)%Z -> str_int v = Some (dec (Z.to_N v)).
Proof.
  intros Hv. unfold str_int. pose proof pow_limit_large as Hlim.
  rewrite (proj2 (Z.leb_gt _ _)) by (rewrite Z.abs_eq; lia).
  rewrite (proj2 (Z.ltb_ge v 0)), Z.abs_eq by lia. reflexivity.
Qed.

(** A two-digit field reads back as its value and holds digits only. *)
Lemma fmt_02d_small v :
  (0 <= v < 60)%Z ->
  exists x, fmt_02d v = Some x /\ undec x = Some v /\ Forall is_digit x.
Proof.
  intros Hv. unfold fmt_02d. rewrite (str_int_small v Hv). cbn [mbind option_bind].
  destruct (length _ <? 2)%nat; eexists; (split; [reflexivity|]).
  - rewrite undec_zero_dec, Z2N.id by lia. split; [reflexivity|].
    constructor; [unfold is_digit; lia | apply uint_codes_digits].
  - rewrite undec_dec, Z2N.id by lia. split; [reflexivity | apply uint_codes_digits].
Qed.

Lemma hms_fields s :
  (0 <= s)%Z ->
  (0 <= s / 3600 /\ 0 <= (s mod 3600) / 60 < 60 /\ 0 <= s mod 60 < 60
   /\ s / 3600 * 3600 + (s mod 3600) / 60 * 60 + s mod 60 = s)%Z.
Proof.
  intros Hs.
  assert (E3 : ((s mod 3600) mod 60 = s mod 60)%Z).
  { apply Z.mod_mod_divide. exists 60%Z. reflexivity. }
  pose proof (Z.div_mod s 3600 ltac:(lia)) as E1.
  pose proof (Z.div_mod (s mod 3600) 60 ltac:(lia)) as E2.
  pose proof (Z.mod_pos_bound s 3600 ltac:(lia)) as B1.
  pose proof (Z.mod_pos_bound (s mod 3600) 60 ltac:(lia)) as B2.
  lia.
Qed.

(** What [format_hms] prints for an integer reads back as that integer. *)
Lemma read_format_hms n t :
  format_hms (JInt n) = Some t -> read_hms t = Some n.
Proof.
  unfold format_hms.
  change (lit ":") with ([58] : ustr). change (lit "-") with ([45] : ustr).
  cbn [py_lt0 py_round mbind option_bind].
  destruct (hms_fields (Z.abs n) (Z.abs_nonneg n)) as (Hh & Hm & Hs & Hsum).
  destruct (str_int (Z.abs n / 3600)) as [hh|] eqn:Ehh; [|discriminate].
  apply str_int_nonneg in Ehh; [|exact Hh].
  destruct (fmt_02d_small _ Hm) as (mm & -> & Umm & Dmm).
  destruct (fmt_02d_small _ Hs) as (ss & -> & Uss & Dss).
  cbn [mbind option_bind]. intros [= <-].
  assert (Dhh : Forall is_digit hh) by (subst hh; apply uint_codes_digits).
  assert (Uhh : undec hh = Some (Z.abs n / 3600)%Z).
  { subst hh. rewrite undec_dec, Z2N.id by exact Hh. reflexivity. }
  assert (Hbody : forall negative,
            read_hms_body negative (hh ++ 58 :: mm ++ 58 :: ss)
            = Some (if negative then (- Z.abs n)%Z else Z.abs n)).
  { intros negative. unfold read_hms_body.
    rewrite (cut_colon_digits hh _ Dhh), (cut_colon_digits mm _ Dmm).
    rewrite Uhh, Umm, Uss. cbn [mbind option_bind]. rewrite Hsum. reflexivity. }
  destruct (n <? 0)%Z eqn:En.
  - cbn [app read_hms]. rewrite N.eqb_refl, (Hbody true).
    apply Z.ltb_lt in En. f_equal. lia.
  - apply Z.ltb_ge in En. cbn [app].
    destruct hh as [|c hh'] eqn:Ec.
    { exfalso. symmetry in Ehh. exact (dec_nonempty _ Ehh). }
    assert (Hc : is_digit c) by (inversion Dhh; assumption).
    cbn [app read_hms]. destruct (N.eqb_spec c 45) as [->|_]; [unfold is_digit in Hc; lia|].
    specialize (Hbody false). cbn [app] in Hbody. rewrite Hbody. f_equal. lia.
Qed.

(** X20. Two different integers are never printed alike by
    [format_hms]. *)
Theorem format_hms_injective a b t :
  format_hms (JInt a) = Some t -> format_hms (JInt b) = Some t -> a = b.
Proof.
  intros Ha Hb. apply read_format_hms in Ha, Hb. congruence.
Qed.

Lemma format_hms_injective_witness : (3725 = 3725)%Z.
Proof.
  apply (format_hms_injective 3725 3725 (lit "1:02:05")); vm_compute; reflexivity.
Defined.

Lemma fmt_02d_small_Some v : (0 <= v < 60)%Z -> exists x, fmt_02d v = Some x.
Proof. intros Hv. destruct (fmt_02d_small v Hv) as (x & Hx & _). eauto. Qed.

Lemma py_lt0_round v r : py_round v = Some r -> exists b, py_lt0 v = Some b.
Proof.
  destruct v as [| b | n | f | s | xs | kvs]; simpl; try discriminate; eauto.
  destruct f; simpl; try discriminate; eauto.
Qed.

(** X21. [format_hms] raises exactly when [round] raises on its argument
    (it is no number, a NaN or an infinity) or the hours would have more
    digits than CPython prints; in particular it returns for every
    integer and finite float whose hours have at most 4300 digits. *)
Theorem format_hms_raises_iff v :
  format_hms v = None
  <-> py_round v = None
      \/ exists r, py_round v = Some r
                   /\ (10 ^ int_max_str_digits <= Z.abs r / 3600)%Z.
Proof.
  unfold format_hms. destruct (py_round v) as [r|] eqn:Hr.
  - destruct (py_lt0_round v r Hr) as [b ->]. cbn [mbind option_bind].
    destruct (hms_fields (Z.abs r) (Z.abs_nonneg r)) as (Hh & Hm & Hs & _).
    destruct (fmt_02d_small_Some _ Hm) as [mm ->].
    destruct (fmt_02d_small_Some _ Hs) as [ss ->].
    cbn [mbind option_bind]. unfold str_int.
    rewrite (Z.abs_eq (Z.abs r / 3600)) by exact Hh.
    destruct (Z.leb_spec (10 ^ int_max_str_digits) (Z.abs r / 3600)) as [Hle|Hlt];
      cbn [mbind option_bind].
    + split; [intros _; right; eauto | reflexivity].
    + split; [discriminate|]. intros [H | (r' & [= <-] & H)]; [discriminate | lia].
  - destruct (py_lt0 v); cbn [mbind option_bind]; split; auto.
Qed.

Lemma float_round_sign m e r :
  float_round (FFinite m e) = Some r -> r <> 0%Z -> (m <? 0)%Z = (r <? 0)%Z.
Proof.
  unfold float_round. intros [= <-] Hr.
  destruct (Z.leb_spec 0 e) as [He|He].
  - assert (Hp : (0 < 2 ^ e)%Z) by (apply Z.pow_pos_nonneg; lia).
    destruct (Z.ltb_spec m 0), (Z.ltb_spec (m * 2 ^ e) 0); try reflexivity; nia.
  - assert (Hd : (0 < 2 ^ (- e))%Z) by (apply Z.pow_pos_nonneg; lia).
    pose proof (Z.div_mod m (2 ^ (- e)) ltac:(lia)) as E.
    pose proof (Z.mod_pos_bound m (2 ^ (- e)) Hd) as B.
    revert Hr. generalize dependent (m mod 2 ^ (- e))%Z.
    generalize dependent (m / 2 ^ (- e))%Z. generalize dependent (2 ^ (- e))%Z.
    intros d Hd q rm E B.
    destruct (2 * rm <? d)%Z eqn:C1; [|destruct (d <? 2 * rm)%Z eqn:C2;
      [|destruct (Z.even q) eqn:C3]]; intros Hr;
      repeat match goal with
             | H : (_ <? _)%Z = true |- _ => apply Z.ltb_lt in H
             | H : (_ <? _)%Z = false |- _ => apply Z.ltb_ge in H
             end;
      match goal with
      | |- (m <? 0)%Z = (?x <? 0)%Z =>
          destruct (Z.ltb_spec m 0), (Z.ltb_spec x 0); try reflexivity; nia
      end.
Qed.

(** X22. A finite float is printed like the integer it rounds to (ties
    go to the even integer), with one exception: a negative float that
    rounds to zero keeps its minus sign and is printed "-0:00:00". *)
Theorem format_hms_float m e r :
  float_round (FFinite m e) = Some r ->
  (r <> 0%Z -> format_hms (JFloat (FFinite m e)) = format_hms (JInt r))
  /\ (r = 0%Z ->
      format_hms (JFloat (FFinite m e))
      = Some (if (m <? 0)%Z then lit "-0:00:00" else lit "0:00:00")).
Proof.
  intros Hr. split.
  - intros Hne. unfold format_hms. cbn [py_lt0 py_round]. rewrite Hr.
    rewrite (float_round_sign m e r Hr Hne). reflexivity.
  - intros ->. unfold format_hms. cbn [py_lt0 py_round]. rewrite Hr.
    destruct (m <? 0)%Z; vm_compute; reflexivity.
Qed.

(** 2.5 is printed as 2 seconds, -0.25 as minus zero. *)
Lemma format_hms_float_witness :
  format_hms (JFloat (FFinite 5 (-1))) = format_hms (JInt 2)
  /\ format_hms (JFloat (FFinite (-1) (-2))) = Some (lit "-0:00:00").
Proof.
  split.
  - apply (format_hms_float 5 (-1) 2); [reflexivity | discriminate].
  - apply (format_hms_float (-1) (-2) 0); reflexivity.
Defined.

(** ** [format_k] and [format_chars] *)

Lemma rstrip_char_snoc_ne c a x : x <> c -> rstrip_char c (a ++ [x]) = a ++ [x].
Proof.
  intros Hx. induction a as [|y a IH]; simpl.
  - destruct (N.eqb_spec x c); [contradiction | reflexivity].
  - rewrite IH. destruct (a ++ [x]) eqn:E; [|reflexivity].
    destruct a; discriminate.
Qed.

Lemma rstrip_char_snoc_eq c a : rstrip_char c (a ++ [c]) = rstrip_char c a.
Proof.
  induction a as [|y a IH]; simpl.
  - rewrite N.eqb_refl. reflexivity.
  - rewrite IH. reflexivity.
Qed.

Section FormatterFacts.
Variable int_of_str : ustr -> option Z.
Variable fmt_thousands : Z -> option ustr.
Variable fmt_millions : Z -> option ustr.

(** X23. [format_k] and [format_chars] answer "?" to a value [int]
    rejects with a [TypeError] or a [ValueError] (None, a list, a dict, a
    NaN, a string that is no integer), but an infinite float makes both
    raise: its [OverflowError] is not among the exceptions they catch. *)
Theorem formatters_unconvertible value :
  (int_outcome int_of_str value = Raises TypeError
   \/ int_outcome int_of_str value = Raises ValueError ->
   format_k int_of_str fmt_thousands value = Returns (lit "?")
   /\ format_chars int_of_str fmt_thousands fmt_millions value = Returns (lit "?"))
  /\ (forall negative, value = JFloat (FInf negative) ->
      format_k int_of_str fmt_thousands value = Raises OverflowError
      /\ format_chars int_of_str fmt_thousands fmt_millions value
         = Raises OverflowError).
Proof.
  split.
  - unfold format_k, format_chars. intros [H | H]; rewrite H;
      destruct value; split; reflexivity.
  - intros negative ->. split; reflexivity.
Qed.

(** X24. [format_chars] agrees with [format_k] on every value whose
    integer is below a million, and on every value that has none. *)
Theorem format_chars_below_million value :
  (forall v, int_outcome int_of_str value = Returns v -> (v < 1000000)%Z) ->
  format_chars int_of_str fmt_thousands fmt_millions value
  = format_k int_of_str fmt_thousands value.
Proof.
  intros Hsmall. unfold format_chars.
  destruct (int_outcome int_of_str value) as [v|e] eqn:Hv.
  - rewrite (proj2 (Z.leb_gt 1000000 v)) by (apply Hsmall; reflexivity).
    unfold format_k. rewrite Hv. cbn [int_outcome].
    destruct value; reflexivity.
  - unfold format_k. rewrite Hv. reflexivity.
Qed.

(** X25. From a million on, [format_chars] keeps the integer part of the
    two-decimal text whole, drops the decimals that are trailing zeros
    and the point when no decimal is left, and appends "M": with the
    text [ip.d1d2] it returns [ip.d1d2M], [ip.d1M] or [ipM]. *)
Theorem format_chars_trims_decimals v ip d1 d2 :
  (1000000 <= v)%Z ->
  fmt_millions v = Some (ip ++ [46; d1; d2]) ->
  ip <> [] -> Forall is_digit ip -> is_digit d1 -> is_digit d2 ->
  format_chars int_of_str fmt_thousands fmt_millions (JInt v)
  = Returns ((if negb (d2 =? 48) then ip ++ [46; d1; d2]
              else if negb (d1 =? 48) then ip ++ [46; d1]
              else ip) ++ lit "M").
Proof.
  intros Hv Htext Hne Hip Hd1 Hd2. unfold format_chars. cbn [int_outcome].
  rewrite (proj2 (Z.leb_le 1000000 v) Hv), Htext. do 2 f_equal.
  unfold is_digit in Hd1, Hd2.
  assert (Hlast : exists ip' c, ip = ip' ++ [c] /\ c <> 46 /\ c <> 48 \/
                                ip = ip' ++ [c] /\ c = 48).
  { destruct (exists_last Hne) as (ip' & c & ->).
    apply Forall_app in Hip as [_ Hc]. inversion Hc as [|? ? Hc' _]; subst.
    unfold is_digit in Hc'.
    exists ip', c. destruct (N.eq_dec c 48); [right | left]; split; auto; split; lia. }
  replace (ip ++ [46; d1; d2]) with (((ip ++ [46]) ++ [d1]) ++ [d2])
    by (rewrite <- !app_assoc; reflexivity).
  destruct (N.eqb_spec d2 48) as [->|H2]; cbn [negb].
  - rewrite rstrip_char_snoc_eq.
    destruct (N.eqb_spec d1 48) as [->|H1]; cbn [negb].
    + rewrite rstrip_char_snoc_eq, rstrip_char_snoc_ne by discriminate.
      rewrite rstrip_char_snoc_eq.
      destruct Hlast as (ip' & c & [(-> & Hc & _) | (-> & ->)]).
      * apply rstrip_char_snoc_ne, Hc.
      * apply rstrip_char_snoc_ne. discriminate.
    + rewrite rstrip_char_snoc_ne by exact H1.
      rewrite rstrip_char_snoc_ne by lia.
      rewrite <- !app_assoc. reflexivity.
  - rewrite rstrip_char_snoc_ne by exact H2.
    rewrite rstrip_char_snoc_ne by lia.
    rewrite <- !app_assoc. reflexivity.
Qed.
End FormatterFacts.

Lemma formatters_unconvertible_witness :
  format_k int_of_str_unused (fun _ => None) (JList []) = Returns (lit "?")
  /\ format_chars int_of_str_unused (fun _ => None) (fun _ => None) (JFloat FNan)
     = Returns (lit "?")
  /\ format_k int_of_str_unused (fun _ => None) (JFloat (FInf false))
     = Raises OverflowError.
Proof.
  split; [|split].
  - apply (formatters_unconvertible int_of_str_unused (fun _ => None)
             (fun _ => None) (JList [])). left. reflexivity.
  - apply (formatters_unconvertible int_of_str_unused (fun _ => None)
             (fun _ => None) (JFloat FNan)). right. reflexivity.
  - apply (formatters_unconvertible int_of_str_unused (fun _ => None)
             (fun _ => None) (JFloat (FInf false))) with (negative := false).
    reflexivity.
Defined.

(** 999999.875 is below a million once truncated. *)
Lemma format_chars_below_million_witness :
  format_chars int_of_str_unused (fun _ => Some (lit "1000.0")) (fun _ => None)
    (JFloat (FFinite 7999999 (-3)))
  = format_k int_of_str_unused (fun _ => Some (lit "1000.0"))
      (JFloat (FFinite 7999999 (-3))).
Proof.
  apply format_chars_below_million. intros v [= <-]. vm_compute. reflexivity.
Defined.

(** Ten millions: "10.00" becomes "10M", the zero of the ten is kept. *)
Lemma format_chars_trims_decimals_witness :
  format_chars int_of_str_unused (fun _ => None) (fun _ => Some (lit "10.00"))
    (JInt 10000000)
  = Returns (lit "10M").
Proof.
  apply (format_chars_trims_decimals int_of_str_unused (fun _ => None)
           (fun _ => Some (lit "10.00")) 10000000 (lit "10") 48 48).
  - lia.
  - reflexivity.
  - discriminate.
  - repeat (constructor; [unfold is_digit; vm_compute; split; discriminate|]).
    constructor.
  - unfold is_digit. lia.
  - unfold is_digit. lia.
Defined.

(** ** Dictionaries *)

Lemma dict_get_set_eq d k v : dict_get (dict_set d k v) k = v.
Proof.
  induction d as [|[k' v'] d IH]; simpl.
  - rewrite str_eqb_refl. reflexivity.
  - destruct (str_eqb k' k) eqn:E; simpl; rewrite E; [reflexivity | exact IH].
Qed.

Lemma dict_get_set_ne d k v k' :
  k <> k' -> dict_get (dict_set d k v) k' = dict_get d k'.
Proof.
  intros Hne. induction d as [|[x w] d IH]; simpl.
  - destruct (str_eqb k k') eqn:E; [apply str_eqb_eq in E; contradiction | reflexivity].
  - destruct (str_eqb x k) eqn:E; simpl.
    + apply str_eqb_eq in E. subst x.
      destruct (str_eqb k k') eqn:E'; [apply str_eqb_eq in E'; contradiction | reflexivity].
    + rewrite IH. reflexivity.
Qed.

Lemma dict_has_set_eq d k v : dict_has (dict_set d k v) k = true.
Proof.
  induction d as [|[x w] d IH]; simpl.
  - rewrite str_eqb_refl. reflexivity.
  - destruct (str_eqb x k) eqn:E; simpl; rewrite E; [reflexivity | exact IH].
Qed.

Lemma dict_has_set_other d k v k' :
  dict_has d k' = true -> dict_has (dict_set d k v) k' = true.
Proof.
  induction d as [|[x w] d IH]; simpl; [discriminate|].
  destruct (str_eqb x k) eqn:E; simpl; [auto|].
  destruct (str_eqb x k'); simpl; auto.
Qed.

Lemma dict_set_id d k v :
  dict_has d k = true -> dict_get d k = v -> dict_set d k v = d.
Proof.
  induction d as [|[x w] d IH]; simpl; [discriminate|].
  destruct (str_eqb x k); simpl.
  - intros _ ->. reflexivity.
  - intros Hh Hg. rewrite (IH Hh Hg). reflexivity.
Qed.

Lemma dict_set_nonempty d k v : dict_set d k v <> [].
Proof. destruct d as [|[x w] d]; simpl; [|destruct (str_eqb x k)]; discriminate. Qed.

(** ** The convenience fields and the exit codes *)

(** The cases of the exit code theorem. *)
Ltac exit_code_cases :=
  repeat split; intros; repeat split; intros;
  try discriminate; try congruence; try lia; eauto.

(** Two key literals differ. *)
Ltac key_ne :=
  let E := fresh "E" in intros E; vm_compute in E; discriminate E.

Section RendererFacts.
Variable int_of_str : ustr -> option Z.
Variable render_template : list (ustr * json) -> option ustr.

(** What a successful run of [add_convenience_fields] went through. *)
Lemma add_convenience_fields_steps stats out :
  add_convenience_fields int_of_str stats = Some out ->
  exists today total_hms avg_seconds avg_hms delta_seconds delta_hms,
    py_or (dict_get stats (lit "today_immersion")) (JDict []) = JDict today
    /\ format_hms (py_or (dict_get today (lit "total_seconds")) (JInt 0))
       = Some total_hms
    /\ py_int int_of_str
         (py_or (dict_get stats (lit "avg_immersion_seconds")) (JInt 0))
       = Some avg_seconds
    /\ format_hms (JInt avg_seconds) = Some avg_hms
    /\ py_int int_of_str
         (py_or (dict_get stats (lit "avg_immersion_delta_seconds")) (JInt 0))
       = Some delta_seconds
    /\ format_hms (JInt delta_seconds) = Some delta_hms
    /\ out = dict_set
               (dict_set
                  (dict_set stats (lit "today_immersion")
                     (JDict (dict_set today (lit "total_hms") (JStr total_hms))))
                  (lit "avg_immersion_hms") (JStr avg_hms))
               (lit "avg_immersion_delta_hms") (JStr delta_hms).
Proof.
  unfold add_convenience_fields.
  destruct (py_or (dict_get stats (lit "today_immersion")) (JDict []))
    as [| | | | | |today] eqn:Htoday; try discriminate.
  destruct (format_hms (py_or (dict_get today (lit "total_seconds")) (JInt 0)))
    as [total_hms|] eqn:Htotal; [|discriminate].
  cbn [mbind option_bind].
  rewrite !dict_get_set_ne by key_ne.
  destruct (py_int int_of_str
              (py_or (dict_get stats (lit "avg_immersion_seconds")) (JInt 0)))
    as [avg|] eqn:Havg; [|discriminate].
  cbn [mbind option_bind].
  destruct (format_hms (JInt avg)) as [avg_hms|] eqn:Havg_hms; [|discriminate].
  cbn [mbind option_bind]. rewrite !dict_get_set_ne by key_ne.
  destruct (py_int int_of_str
              (py_or (dict_get stats (lit "avg_immersion_delta_seconds")) (JInt 0)))
    as [delta|] eqn:Hdelta; [|discriminate].
  cbn [mbind option_bind].
  destruct (format_hms (JInt delta)) as [delta_hms|] eqn:Hdelta_hms; [|discriminate].
  cbn [mbind option_bind]. intros [= <-].
  exists today, total_hms, avg, avg_hms, delta, delta_hms. repeat split; assumption.
Qed.

(** X27. Adding the convenience fields a second time changes nothing:
    the fields are computed from entries the step does not touch. *)
Theorem add_convenience_fields_idempotent stats out :
  add_convenience_fields int_of_str stats = Some out ->
  add_convenience_fields int_of_str out = Some out.
Proof.
  intros H.
  destruct (add_convenience_fields_steps stats out H)
    as (today & th & a & ah & dl & dh & Htoday & Hth & Ha & Hah & Hdl & Hdh & ->).
  set (today' := dict_set today (lit "total_hms") (JStr th)).
  set (out := dict_set (dict_set (dict_set stats (lit "today_immersion") (JDict today'))
                          (lit "avg_immersion_hms") (JStr ah))
                (lit "avg_immersion_delta_hms") (JStr dh)).
  assert (Gtoday : dict_get out (lit "today_immersion") = JDict today').
  { unfold out. rewrite !dict_get_set_ne by key_ne. apply dict_get_set_eq. }
  assert (Ttoday : py_or (JDict today') (JDict []) = JDict today').
  { unfold py_or. cbn [json_truthy].
    destruct today' eqn:E; [exfalso; exact (dict_set_nonempty _ _ _ E) | reflexivity]. }
  unfold add_convenience_fields. rewrite Gtoday, Ttoday.
  assert (Gtotal : dict_get today' (lit "total_seconds")
                   = dict_get today (lit "total_seconds")).
  { unfold today'. apply dict_get_set_ne. key_ne. }
  rewrite Gtotal, Hth. cbn [mbind option_bind].
  assert (Stoday : dict_set today' (lit "total_hms") (JStr th) = today').
  { apply dict_set_id; [apply dict_has_set_eq | apply dict_get_set_eq]. }
  rewrite Stoday.
  assert (Sout1 : dict_set out (lit "today_immersion") (JDict today') = out).
  { apply dict_set_id; [|exact Gtoday].
    unfold out. do 2 apply dict_has_set_other. apply dict_has_set_eq. }
  rewrite Sout1.
  assert (Gavg : dict_get out (lit "avg_immersion_seconds")
                 = dict_get stats (lit "avg_immersion_seconds")).
  { unfold out. rewrite !dict_get_set_ne by key_ne. reflexivity. }
  rewrite Gavg, Ha. cbn [mbind option_bind]. rewrite Hah. cbn [mbind option_bind].
  assert (Sout2 : dict_set out (lit "avg_immersion_hms") (JStr ah) = out).
  { apply dict_set_id.
    - unfold out. apply dict_has_set_other, dict_has_set_eq.
    - unfold out. rewrite dict_get_set_ne by key_ne. apply dict_get_set_eq. }
  rewrite Sout2.
  assert (Gdelta : dict_get out (lit "avg_immersion_delta_seconds")
                   = dict_get stats (lit "avg_immersion_delta_seconds")).
  { unfold out. rewrite !dict_get_set_ne by key_ne. reflexivity. }
  rewrite Gdelta, Hdl. cbn [mbind option_bind]. rewrite Hdh. cbn [mbind option_bind].
  f_equal. apply dict_set_id; [apply dict_has_set_eq | apply dict_get_set_eq].
Qed.

(** X28. The step writes three entries and nothing else: every other key
    of the statistics reads as before, [today_immersion] is a dict that
    differs from the one found only under [total_hms], and the three
    entries hold printed durations. *)
Theorem add_convenience_fields_frame stats out :
  add_convenience_fields int_of_str stats = Some out ->
  (forall k, k <> lit "today_immersion" -> k <> lit "avg_immersion_hms" ->
             k <> lit "avg_immersion_delta_hms" ->
             dict_get out k = dict_get stats k)
  /\ (exists today today' total_hms avg_hms delta_hms,
        py_or (dict_get stats (lit "today_immersion")) (JDict []) = JDict today
        /\ dict_get out (lit "today_immersion") = JDict today'
        /\ (forall k, k <> lit "total_hms" -> dict_get today' k = dict_get today k)
        /\ dict_get today' (lit "total_hms") = JStr total_hms
        /\ dict_get out (lit "avg_immersion_hms") = JStr avg_hms
        /\ dict_get out (lit "avg_immersion_delta_hms") = JStr delta_hms).
Proof.
  intros H.
  destruct (add_convenience_fields_steps stats out H)
    as (today & th & a & ah & dl & dh & Htoday & Hth & Ha & Hah & Hdl & Hdh & ->).
  split.
  - intros k H1 H2 H3. rewrite !dict_get_set_ne by congruence. reflexivity.
  - exists today, (dict_set today (lit "total_hms") (JStr th)), th, ah, dh.
    split; [exact Htoday|]. split.
    { rewrite !dict_get_set_ne by key_ne. apply dict_get_set_eq. }
    split; [intros k Hk; apply dict_get_set_ne; congruence|].
    split; [apply dict_get_set_eq|]. split.
    + rewrite dict_get_set_ne by key_ne. apply dict_get_set_eq.
    + apply dict_get_set_eq.
Qed.

(** X26. [main] returns 10 exactly when it is not given two arguments,
    13 exactly when it is and the statistics are no file, cannot be
    loaded or are no object, and 0 exactly when it wrote a document; a
    document is written only from an object, after the convenience fields
    were added to it. *)
Theorem main_exit_codes argv source can_write code written :
  main int_of_str render_template argv source can_write = Some (code, written) ->
  (code = 10 \/ code = 13 \/ code = 0)%Z
  /\ (code = 10%Z <-> length argv <> 3%nat)
  /\ (code = 13%Z <->
      length argv = 3%nat /\ forall stats, source <> Loaded (JDict stats))
  /\ (code = 0%Z <-> written <> None)
  /\ (forall html, written = Some html ->
        exists stats stats',
          source = Loaded (JDict stats)
          /\ add_convenience_fields int_of_str stats = Some stats'
          /\ render_template stats' = Some html).
Proof.
  unfold main. destruct (Nat.eqb_spec (length argv) 3) as [Hlen|Hlen]; cbn [negb].
  2: { intros [= <- <-]. cbn [exit_code CONFIG]. exit_code_cases. }
  destruct source as [| |[| | | | | |stats]];
    try (intros [= <- <-]; cbn [exit_code OUTPUT]; exit_code_cases; fail).
  destruct (add_convenience_fields int_of_str stats) as [stats'|] eqn:Hadd;
    [|discriminate]. cbn [mbind option_bind].
  destruct (render_template stats') as [html|] eqn:Hhtml; [|discriminate].
  cbn [mbind option_bind]. destruct can_write; [|discriminate].
  intros [= <- <-]. exit_code_cases.
  - match goal with H : _ /\ _ |- _ => destruct H as [_ Hno] end.
    exfalso. exact (Hno stats eq_refl).
  - match goal with H : Some _ = Some _ |- _ => injection H as <- end.
    exists stats, stats'. auto.
Qed.
End RendererFacts.

Lemma add_convenience_fields_idempotent_witness :
  exists out,
    add_convenience_fields int_of_str_unused stats_example = Some out
    /\ add_convenience_fields int_of_str_unused out = Some out.
Proof.
  eexists. split; [vm_compute; reflexivity|].
  apply (add_convenience_fields_idempotent int_of_str_unused stats_example).
  vm_compute. reflexivity.
Defined.

Lemma add_convenience_fields_frame_witness :
  exists out,
    add_convenience_fields int_of_str_unused stats_example = Some out
    /\ dict_get out (lit "avg_immersion_seconds") = JFloat (FFinite 149 (-2))
    /\ dict_get out (lit "avg_immersion_hms") = JStr (lit "0:00:37").
Proof.
  eexists. split; [vm_compute; reflexivity|].
  match goal with
  | |- dict_get ?out _ = _ /\ _ =>
      destruct (add_convenience_fields_frame int_of_str_unused stats_example out
                  ltac:(vm_compute; reflexivity)) as [Hother _]
  end.
  split; [|vm_compute; reflexivity].
  rewrite Hother by key_ne. reflexivity.
Defined.

Lemma main_exit_codes_witness :
  main int_of_str_unused (fun _ => Some (lit "<html>"))
    [lit "render"; lit "stats.json"; lit "out.html"]
    (Loaded (JDict stats_example)) true
  = Some (0%Z, Some (lit "<html>"))
  /\ (0%Z = 0%Z <-> Some (lit "<html>") <> None).
Proof.
  split; [vm_compute; reflexivity|].
  apply (main_exit_codes int_of_str_unused (fun _ => Some (lit "<html>"))
           [lit "render"; lit "stats.json"; lit "out.html"]
           (Loaded (JDict stats_example)) true 0%Z (Some (lit "<html>"))).
  vm_compute. reflexivity.
Defined.
